(** * Bilibili popular-video analyzer: a shallow embedding of
      [bilibili_popular.py] and the properties of its pipeline.

    The analyzer lists popular videos page by page, enriches every listed
    item from two detail sources, and exports the enriched records.  The
    development follows the source method by method:

    - Python values that cross the program ([pyval]), dictionaries as
      finite maps, and exceptions as an error monad ([exc]);
    - everything the program reads from outside its own code (the three
      HTTP endpoints, the regular-expression engine, the clock, the file
      system, the Unicode tables) collected in one record, [World];
    - [get_popular_videos], [_get_video_stats_from_web],
      [_get_video_stats_from_api], [get_video_details], [format_duration],
      [format_timestamp], the record-building loop of [run_analysis],
      [export_to_csv] and the summary block of [generate_markdown_report].

    Strings are byte strings holding the UTF-8 encoding of the Python text;
    the characters the program inspects by value (comma, quote, CR, LF) are
    ASCII, and UTF-8 never reuses an ASCII byte inside a longer sequence.
    Where the program asks a question that depends on the Unicode tables
    ([str.isdigit], [int] on digits outside ASCII) the answer for a text
    that is not ASCII comes from the [World].
    JSON numbers with a fraction (Python floats) are outside [pyval].
    Integers are Python's unbounded integers, and the interpreter's
    optional cap on the number of digits of a decimal conversion
    ([sys.set_int_max_str_digits]) is taken to be off. *)

From stdpp Require Import gmap strings list fin_maps pretty.
From Stdlib Require Import ZArith Ascii Lia Sorted.

Open Scope Z_scope.

(** ** Python values and exceptions *)

Module Py.

(** A decoded JSON document, which is also what the analyzer stores in the
    dictionaries it builds. *)
#[warnings="-register-all"]
Inductive pyval :=
| PNone
| PBool (b : bool)
| PInt (z : Z)
| PStr (s : string)
| PList (l : list pyval)
| PDict (d : gmap string pyval).

Abbreviation pydict := (gmap string pyval).

Inductive py_exn :=
| KeyError
| TypeError
| AttributeError
| ValueError
| RequestException
| OtherException.

(** The outcome of an expression that may raise. *)
Inductive exc (A : Type) :=
| Ok (a : A)
| Raise (e : py_exn).
Arguments Ok {A} a.
Arguments Raise {A} e.

#[export] Instance exc_ret : MRet exc := @Ok.
#[export] Instance exc_bind : MBind exc := λ A B f m,
  match m with
  | Ok a => f a
  | Raise e => Raise e
  end.

#[export] Instance exc_fmap : FMap exc := λ A B f m,
  match m with
  | Ok a => Ok (f a)
  | Raise e => Raise e
  end.

Definition is_ok {A} (m : exc A) : bool :=
  match m with Ok _ => true | Raise _ => false end.

(** [try: body / except Exception: handler] for a body whose value is the
    value of the statement. *)
Definition try_except {A} (body : exc A) (handler : py_exn → A) : A :=
  match body with
  | Ok a => a
  | Raise e => handler e
  end.

(** [v[k]] for a string key. *)
Definition getitem (v : pyval) (k : string) : exc pyval :=
  match v with
  | PDict d =>
      match d !! k with
      | Some x => Ok x
      | None => Raise KeyError
      end
  | _ => Raise TypeError
  end.

(** [v.get(k, dflt)]; only dictionaries have the method. *)
Definition get (v : pyval) (k : string) (dflt : pyval) : exc pyval :=
  match v with
  | PDict d => Ok (default dflt (d !! k))
  | _ => Raise AttributeError
  end.

(** [d.get(k, dflt)] on a value known to be a dictionary. *)
Definition dget (d : pydict) (k : string) (dflt : pyval) : pyval :=
  default dflt (d !! k).

(** The integer a value stands for in arithmetic: [bool] is a subclass of
    [int] in Python. *)
Definition as_int (v : pyval) : option Z :=
  match v with
  | PInt z => Some z
  | PBool b => Some (if b then 1 else 0)
  | _ => None
  end.

(** [v == 0]. *)
Definition eq_zero (v : pyval) : bool :=
  match as_int v with
  | Some z => z =? 0
  | None => false
  end.

(** [v == 'N/A'] is not needed on values; the sentinel itself: *)
Definition NA : string := "N/A".

(** [str(n)] for an integer. *)
Definition str_int (z : Z) : string := pretty z.

(** [f"{n:02d}"]: zero padding to width two; a minus sign counts towards
    the width. *)
Definition fmt_02d (z : Z) : string :=
  if (0 <=? z) && (z <? 10) then "0" +:+ str_int z else str_int z.

(** [True] exactly on the ASCII decimal digits. *)
Definition is_digit (c : ascii) : bool :=
  let n := nat_of_ascii c in (48 <=? n)%nat && (n <=? 57)%nat.

Definition digit_val (c : ascii) : Z := Z.of_nat (nat_of_ascii c) - 48.

(** The character of a decimal digit [0..9]. *)
Definition digit_char (d : Z) : ascii := ascii_of_nat (Z.to_nat (48 + d)).

Fixpoint all_digits (s : string) : bool :=
  match s with
  | EmptyString => true
  | String c s' => is_digit c && all_digits s'
  end.

(** A non-empty string of ASCII decimal digits: what [s.isdigit()] tests
    on a text whose characters are all ASCII. *)
Definition ascii_isdigit (s : string) : bool :=
  match s with
  | EmptyString => false
  | _ => all_digits s
  end.

(** No byte of a multi-byte character: the text is ASCII. *)
Fixpoint ascii_only (s : string) : bool :=
  match s with
  | EmptyString => true
  | String c s' => (nat_of_ascii c <? 128)%nat && ascii_only s'
  end.

Fixpoint int_of_digits (acc : Z) (s : string) : Z :=
  match s with
  | EmptyString => acc
  | String c s' => int_of_digits (10 * acc + digit_val c) s'
  end.

(** [s.replace(',', '')]. *)
Fixpoint remove_commas (s : string) : string :=
  match s with
  | EmptyString => EmptyString
  | String c s' =>
      if Ascii.eqb c ","%char then remove_commas s'
      else String c (remove_commas s')
  end.

End Py.
Export Py.

(** ** Duration and timestamp formatting *)

(** [format_duration] on an integer number of seconds.  [divmod] is floor
    division with a non-negative remainder, as [Z.div] and [Z.modulo] are
    for a positive divisor. *)
Definition format_duration (seconds : Z) : string :=
  if seconds =? 0 then NA
  else
    let minutes := seconds / 60 in
    let seconds := seconds mod 60 in
    let hours := minutes / 60 in
    let minutes := minutes mod 60 in
    if 0 <? hours then
      str_int hours +:+ ":" +:+ fmt_02d minutes +:+ ":" +:+ fmt_02d seconds
    else
      str_int minutes +:+ ":" +:+ fmt_02d seconds.

(** [format_duration] on whatever the details dictionary holds: the
    comparison with 0 and [divmod] accept [int] and [bool] and raise
    [TypeError] on anything else. *)
Definition format_duration_py (seconds : pyval) : exc string :=
  match as_int seconds with
  | Some z => Ok (format_duration z)
  | None => Raise TypeError
  end.

(** Two decimal digits, tens first. *)
Definition two_digits (z : Z) : string :=
  String (digit_char (z / 10)) (String (digit_char (z mod 10)) EmptyString).

(** ** The world outside the program *)

(** The response envelope of the ranked-list endpoint, as the fetcher reads
    it: [data['code']], [data['message']] and [data['data']['list']]. *)
Record envelope := {
  env_code : Z;
  env_message : string;
  env_list : list pyval;
}.

(** The six groups of a successful [re.search] with one of the two
    statistics patterns. *)
Record re_match := {
  group1 : string; group2 : string; group3 : string;
  group4 : string; group5 : string; group6 : string;
}.

(** What the analyzer obtains from outside.  A request is identified by
    what the code puts in the URL; the two detail requests carry in addition
    the rank being processed, so that two listed items with one identifier
    may still be answered differently. *)
Record World := {
  (** [session.get], [raise_for_status] and [response.json()] on the
      ranked-list URL for a page size and a page number; [Raise] when one
      of them raises or the payload has no envelope. *)
  popular : Z → Z → exc envelope;
  (** [response.text] of the video page. *)
  video_page : Z → pyval → exc string;
  (** [response.json()] of the view API. *)
  view_api : Z → pyval → exc pyval;
  (** [re.search(pattern, text)]. *)
  re_search : string → string → option re_match;
  (** [datetime.fromtimestamp(t).strftime('%Y-%m-%d %H:%M:%S')], which
      raises outside the range of dates the platform supports. *)
  strftime_local : Z → exc string;
  (** [datetime.now().strftime('%Y-%m-%d %H:%M:%S')] when the record of
      the given rank is built. *)
  now : Z → string;
  (** [str] of a list or a dictionary. *)
  str_container : pyval → string;
  (** [datetime.now().strftime("%Y%m%d_%H%M%S")] when an export starts. *)
  file_stamp : string;
  (** Whether [open(filename, 'w')] and the writes that follow succeed. *)
  writable : string → bool;
  (** For a file that is not written in full: [None] when [open] itself
      fails, [Some n] when [open] succeeds, which creates or empties the
      file, and a later write fails with only the first [n] bytes in the
      file. *)
  write_failure : string → option nat;
  (** [s.isdigit()] for a text with a character outside ASCII: whether
      every character is a Unicode digit. *)
  unicode_isdigit : string → bool;
  (** [int(s)] for such a text made of digits: the number, or [None] where
      [int] raises [ValueError] (a digit that is not a decimal digit, such
      as a superscript two). *)
  unicode_int : string → option N;
}.

(** ** Listing fetcher *)

(** The loop of [get_popular_videos]: [remaining] pages of
    [range(page_number, page_number + max_pages)] are still to be visited,
    [page] is the next one, [all_videos] the accumulator.  Every [break]
    returns the accumulator. *)
Fixpoint fetch_pages (w : World) (page_size page : Z) (remaining : nat)
    (all_videos : list pyval) : list pyval :=
  match remaining with
  | O => all_videos
  | S remaining' =>
      match popular w page_size page with
      | Ok data =>
          if negb (env_code data =? 0) then all_videos
          else
            match env_list data with
            | [] => all_videos
            | videos =>
                fetch_pages w page_size (page + 1) remaining'
                  (all_videos ++ videos)
            end
      | Raise RequestException => all_videos
      | Raise _ => all_videos
      end
  end.

Definition get_popular_videos (w : World) (page_size page_number max_pages : Z)
    : list pyval :=
  fetch_pages w page_size page_number (Z.to_nat max_pages) [].

(** The items a page contributes when the loop reaches it; the loop stops
    at a page that contributes none. *)
Definition page_items (w : World) (page_size page : Z) : list pyval :=
  match popular w page_size page with
  | Ok data => if env_code data =? 0 then env_list data else []
  | Raise _ => []
  end.

(** [list(range(page, page + k))]. *)
Fixpoint range_from (page : Z) (k : nat) : list Z :=
  match k with
  | O => []
  | S k' => page :: range_from (page + 1) k'
  end.

(** ** Per-item enrichment *)

Definition counter_fields : list string :=
  ["play_count"; "danmaku_count"; "like_count";
   "coin_count"; "favorite_count"; "share_count"].

(** [{key: 'N/A' for key in [...]}]. *)
Definition NA_stats : pydict :=
  list_to_map ((λ key, (key, PStr NA)) <$> counter_fields).

Definition patterns : list string :=
  ["视频播放量 (\d+[,]?\d*)、弹幕量 (\d+[,]?\d*)、点赞数 (\d+[,]?\d*)、投硬币枚数 (\d+[,]?\d*)、收藏人数 (\d+[,]?\d*)、转发人数 (\d+[,]?\d*)";
   "播放量 (\d+[,]?\d*).*弹幕量 (\d+[,]?\d*).*点赞数 (\d+[,]?\d*).*投硬币枚数 (\d+[,]?\d*).*收藏人数 (\d+[,]?\d*).*转发人数 (\d+[,]?\d*)"].

(** The dictionary returned for a match. *)
Definition stats_of_match (m : re_match) : pydict :=
  list_to_map
    [("play_count", PStr (remove_commas (group1 m)));
     ("danmaku_count", PStr (remove_commas (group2 m)));
     ("like_count", PStr (remove_commas (group3 m)));
     ("coin_count", PStr (remove_commas (group4 m)));
     ("favorite_count", PStr (remove_commas (group5 m)));
     ("share_count", PStr (remove_commas (group6 m)))].

(** [for pattern in patterns: match = re.search(pattern, text); if match:
    return ...]: the first pattern that matches decides. *)
Fixpoint first_match (w : World) (pats : list string) (text : string)
    : option re_match :=
  match pats with
  | [] => None
  | pattern :: pats' =>
      match re_search w pattern text with
      | Some m => Some m
      | None => first_match w pats' text
      end
  end.

Definition _get_video_stats_from_web (w : World) (rank : Z) (bvid : pyval)
    : pydict :=
  try_except
    (text ← video_page w rank bvid;
     match first_match w patterns text with
     | Some m => Ok (stats_of_match m)
     | None => Ok NA_stats
     end)
    (λ _, NA_stats).

Definition _get_video_stats_from_api (w : World) (rank : Z) (bvid : pyval)
    : pydict :=
  try_except
    (data ← view_api w rank bvid;
     code ← getitem data "code";
     if eq_zero code then
       data_data ← getitem data "data";
       stat ← getitem data_data "stat";
       view ← get stat "view" (PInt 0);
       danmaku ← get stat "danmaku" (PInt 0);
       like ← get stat "like" (PInt 0);
       coin ← get stat "coin" (PInt 0);
       favorite ← get stat "favorite" (PInt 0);
       share ← get stat "share" (PInt 0);
       reply ← get stat "reply" (PInt 0);
       duration ← get data_data "duration" (PInt 0);
       pubdate ← get data_data "pubdate" (PInt 0);
       cid ← get data_data "cid" (PInt 0);
       tname ← get data_data "tname" (PStr "");
       Ok (list_to_map
             [("view", view); ("danmaku", danmaku); ("like", like);
              ("coin", coin); ("favorite", favorite); ("share", share);
              ("reply", reply); ("duration", duration);
              ("pubdate", pubdate); ("cid", cid); ("tname", tname)])
     else Ok ∅)
    (λ _, ∅).

(** [{**stats, **api_data}]: on a common key the later dictionary wins;
    [∪] on maps prefers its left operand. *)
Definition get_video_details (w : World) (rank : Z) (bvid : pyval) : pydict :=
  let stats := _get_video_stats_from_web w rank bvid in
  let api_data := _get_video_stats_from_api w rank bvid in
  api_data ∪ stats.

Definition unknown : string := "未知".

Definition format_timestamp (w : World) (timestamp : pyval) : exc string :=
  match as_int timestamp with
  | Some z => if z =? 0 then Ok unknown else strftime_local w z
  | None => Raise TypeError
  end.

(** [v[:30]], evaluated for the progress line: strings and lists can be
    sliced, anything else raises. *)
Definition slice_check (v : pyval) : exc unit :=
  match v with
  | PStr _ | PList _ => Ok ()
  | _ => Raise TypeError
  end.

(** The dictionary display [enriched_video = {...}] once its operands are
    evaluated. *)
Definition enriched_video (i : Z)
    (title desc bvid short_link pic first_frame pub_location : pyval)
    (owner_name owner_mid owner_face : pyval) (details : pydict)
    (duration_formatted publish_time fetch_time : string) : pydict :=
  list_to_map
    [("rank", PInt i);
     ("title", title);
     ("desc", desc);
     ("bvid", bvid);
     ("short_link", short_link);
     ("pic", pic);
     ("first_frame", first_frame);
     ("pub_location", pub_location);
     ("owner_name", owner_name);
     ("owner_mid", owner_mid);
     ("owner_face", owner_face);
     ("play_count",
        dget details "play_count" (dget details "view" (PStr NA)));
     ("danmaku_count",
        dget details "danmaku_count" (dget details "danmaku" (PStr NA)));
     ("like_count",
        dget details "like_count" (dget details "like" (PStr NA)));
     ("coin_count",
        dget details "coin_count" (dget details "coin" (PStr NA)));
     ("favorite_count",
        dget details "favorite_count" (dget details "favorite" (PStr NA)));
     ("share_count",
        dget details "share_count" (dget details "share" (PStr NA)));
     ("reply_count", dget details "reply" (PStr NA));
     ("duration", dget details "duration" (PInt 0));
     ("duration_formatted", PStr duration_formatted);
     ("publish_time", PStr publish_time);
     ("tname", dget details "tname" (PStr unknown));
     ("fetch_time", PStr fetch_time)].

(** The body of the loop of [run_analysis] for the item at rank [i], up to
    [enriched_videos.append]: subscripts raise on a missing key, [.get]
    supplies its default, and the operands of the dictionary display are
    evaluated in order. *)
Definition enrich (w : World) (i : Z) (video : pyval) : exc pydict :=
  shown ← getitem video "title";
  _ ← slice_check shown;
  bvid ← getitem video "bvid";
  let details := get_video_details w i bvid in
  title ← getitem video "title";
  desc ← get video "desc" (PStr "");
  bvid ← getitem video "bvid";
  short_link ← get video "short_link_v2" (PStr "");
  pic ← get video "pic" (PStr "");
  first_frame ← get video "first_frame" (PStr "");
  pub_location ← get video "pub_location" (PStr "");
  owner ← getitem video "owner";
  owner_name ← getitem owner "name";
  owner ← getitem video "owner";
  owner_mid ← getitem owner "mid";
  owner ← getitem video "owner";
  owner_face ← getitem owner "face";
  duration_formatted ← format_duration_py (dget details "duration" (PInt 0));
  publish_time ← format_timestamp w (dget details "pubdate" (PInt 0));
  Ok (enriched_video i title desc bvid short_link pic first_frame
        pub_location owner_name owner_mid owner_face details
        duration_formatted publish_time (now w i)).

(** [for i, video in enumerate(videos, 1): ... enriched_videos.append]. *)
Fixpoint enrich_from (w : World) (i : Z) (videos : list pyval)
    (enriched_videos : list pydict) : exc (list pydict) :=
  match videos with
  | [] => Ok enriched_videos
  | video :: videos' =>
      enriched_video ← enrich w i video;
      enrich_from w (i + 1) videos' (enriched_videos ++ [enriched_video])
  end.

Definition enrich_videos (w : World) (videos : list pyval)
    : exc (list pydict) :=
  enrich_from w 1 videos [].


(** ** Tabular export *)

Definition export_fields : list string :=
  ["rank"; "title"; "owner_name"; "play_count"; "danmaku_count";
   "like_count"; "coin_count"; "favorite_count"; "share_count";
   "reply_count"; "duration_formatted"; "publish_time"; "bvid";
   "pub_location"; "tname"].

Module Csv.

Definition comma : ascii := ","%char.
Definition dquote : ascii := "034"%char.
Definition CR : ascii := "013"%char.
Definition LF : ascii := "010"%char.

(** The characters that make the writer quote a field under
    [QUOTE_MINIMAL] in the [excel] dialect: the delimiter, the quote
    character and the characters of the line terminator. *)
Definition is_special (c : ascii) : bool :=
  Ascii.eqb c comma || Ascii.eqb c dquote || Ascii.eqb c CR || Ascii.eqb c LF.

Fixpoint has_special (s : string) : bool :=
  match s with
  | EmptyString => false
  | String c s' => is_special c || has_special s'
  end.

(** [doublequote=True]: a quote character inside a field is written
    twice. *)
Fixpoint double_quotes (s : string) : string :=
  match s with
  | EmptyString => EmptyString
  | String c s' =>
      if Ascii.eqb c dquote then String dquote (String dquote (double_quotes s'))
      else String c (double_quotes s')
  end.

Definition write_field (s : string) : string :=
  if has_special s then
    String dquote (double_quotes s +:+ String dquote EmptyString)
  else s.

Fixpoint join_fields (cells : list string) : string :=
  match cells with
  | [] => EmptyString
  | [cell] => write_field cell
  | cell :: cells' =>
      write_field cell +:+ String comma (join_fields cells')
  end.

(** [writer.writerow]: the joined fields and the line terminator
    ["\r\n"]; a record made of one empty field is written as a pair of
    quotes. *)
Definition write_row (cells : list string) : string :=
  let line := join_fields cells in
  let line :=
    match cells, line with
    | _ :: _, EmptyString => String dquote (String dquote EmptyString)
    | _, _ => line
    end in
  line +:+ String CR (String LF EmptyString).

Fixpoint write_rows (rows : list (list string)) : string :=
  match rows with
  | [] => EmptyString
  | row :: rows' => write_row row +:+ write_rows rows'
  end.

(** *** Reading the dialect back

    The reader of the same dialect ([csv.reader] over a file opened with
    [newline='']), as a machine over the characters of the text.  The
    states are those of the library's parser; [AFTER_CR] stands for its
    end-of-line state after a carriage return, where a line feed still
    belongs to the terminator just read. *)
Inductive rstate :=
| START_RECORD
| START_FIELD
| IN_FIELD
| IN_QUOTED_FIELD
| QUOTE_IN_QUOTED_FIELD
| AFTER_CR.

(** [fields] and [records] grow at the head. *)
Record reader := {
  st : rstate;
  field : string;
  fields : list string;
  records : list (list string);
}.

Definition init : reader :=
  {| st := START_RECORD; field := EmptyString; fields := []; records := [] |}.

Definition set_state (r : reader) (s : rstate) : reader :=
  {| st := s; field := field r; fields := fields r; records := records r |}.

Definition add_char (r : reader) (s : rstate) (c : ascii) : reader :=
  {| st := s; field := field r +:+ String c EmptyString;
     fields := fields r; records := records r |}.

Definition save_field (r : reader) (s : rstate) : reader :=
  {| st := s; field := EmptyString;
     fields := field r :: fields r; records := records r |}.

Definition end_record (r : reader) (s : rstate) : reader :=
  {| st := s; field := EmptyString; fields := [];
     records := rev (fields r) :: records r |}.

Definition at_start_field (r : reader) (c : ascii) : reader :=
  if Ascii.eqb c LF then end_record (save_field r START_FIELD) START_RECORD
  else if Ascii.eqb c CR then end_record (save_field r START_FIELD) AFTER_CR
  else if Ascii.eqb c dquote then set_state r IN_QUOTED_FIELD
  else if Ascii.eqb c comma then save_field r START_FIELD
  else add_char r IN_FIELD c.

Definition at_start_record (r : reader) (c : ascii) : reader :=
  if Ascii.eqb c LF then end_record r START_RECORD
  else if Ascii.eqb c CR then end_record r AFTER_CR
  else at_start_field r c.

Definition step (r : reader) (c : ascii) : reader :=
  match st r with
  | START_RECORD => at_start_record r c
  | AFTER_CR =>
      if Ascii.eqb c LF then set_state r START_RECORD
      else at_start_record r c
  | START_FIELD => at_start_field r c
  | IN_FIELD =>
      if Ascii.eqb c LF then end_record (save_field r IN_FIELD) START_RECORD
      else if Ascii.eqb c CR then end_record (save_field r IN_FIELD) AFTER_CR
      else if Ascii.eqb c comma then save_field r START_FIELD
      else add_char r IN_FIELD c
  | IN_QUOTED_FIELD =>
      if Ascii.eqb c dquote then set_state r QUOTE_IN_QUOTED_FIELD
      else add_char r IN_QUOTED_FIELD c
  | QUOTE_IN_QUOTED_FIELD =>
      if Ascii.eqb c dquote then add_char r IN_QUOTED_FIELD c
      else if Ascii.eqb c comma then save_field r START_FIELD
      else if Ascii.eqb c LF then
        end_record (save_field r IN_FIELD) START_RECORD
      else if Ascii.eqb c CR then
        end_record (save_field r IN_FIELD) AFTER_CR
      else add_char r IN_FIELD c
  end.

Fixpoint feed (r : reader) (text : string) : reader :=
  match text with
  | EmptyString => r
  | String c text' => feed (step r c) text'
  end.

(** At the end of the input a record under way is completed. *)
Definition finish (r : reader) : list (list string) :=
  match st r with
  | START_RECORD | AFTER_CR => rev (records r)
  | _ => rev (records (end_record (save_field r IN_FIELD) START_RECORD))
  end.

Definition read_rows (text : string) : list (list string) :=
  finish (feed init text).



End Csv.

(** The byte order mark the [utf-8-sig] codec writes first, and removes
    when it decodes. *)
Definition BOM : string :=
  String "239"%char (String "187"%char (String "191"%char EmptyString)).

Definition decode_utf8_sig (bytes : string) : string :=
  match bytes with
  | String a (String b (String c rest)) =>
      if Ascii.eqb a "239"%char && Ascii.eqb b "187"%char
         && Ascii.eqb c "191"%char
      then rest else bytes
  | _ => bytes
  end.

Definition str_bool (b : bool) : string := if b then "True" else "False".

(** The text the writer puts in a cell: [None] gives the empty string, a
    string is written as it is, anything else through [str]. *)
Definition csv_cell (w : World) (v : pyval) : string :=
  match v with
  | PNone => EmptyString
  | PStr s => s
  | PInt z => str_int z
  | PBool b => str_bool b
  | PList _ | PDict _ => str_container w v
  end.

(** [{field: video.get(field, '') for field in export_fields}]. *)
Definition export_video (video : pydict) : pydict :=
  list_to_map ((λ field, (field, dget video field (PStr ""))) <$> export_fields).

(** [DictWriter] row of a dictionary: [rowdict.get(key, restval)] for every
    field name, [restval] being [''].  The dictionaries built by
    [export_video] have no key outside the field names, so the check of
    [extrasaction='raise'] passes. *)
Definition dict_row (w : World) (rowdict : pydict) : list string :=
  (λ key, csv_cell w (dget rowdict key (PStr ""))) <$> export_fields.

Definition csv_filename (w : World) (filename : option string) : string :=
  match filename with
  | Some (String c s) => String c s
  | _ => "bilibili_hot_videos_" +:+ file_stamp w +:+ ".csv"
  end.

(** The first [n] bytes of a text. *)
Fixpoint prefix_bytes (n : nat) (s : string) : string :=
  match n, s with
  | S n', String c s' => String c (prefix_bytes n' s')
  | _, _ => EmptyString
  end.

(** [export_to_csv] on a file system given as a map from names to
    contents.  Nothing is opened for an empty list.  Every exception is
    caught: when [open] fails the file system stays as it was; when [open]
    succeeds and a write fails, the file is left with the bytes written so
    far. *)
Definition export_to_csv (w : World) (fs : gmap string string)
    (videos : list pydict) (filename : option string) : gmap string string :=
  let filename := csv_filename w filename in
  match videos with
  | [] => fs
  | _ =>
      let export_data := export_video <$> videos in
      if writable w filename then
        <[filename :=
            BOM +:+ Csv.write_row export_fields
                +:+ Csv.write_rows (dict_row w <$> export_data)]> fs
      else
        match write_failure w filename with
        | None => fs
        | Some n =>
            <[filename :=
                prefix_bytes n
                  (BOM +:+ Csv.write_row export_fields
                       +:+ Csv.write_rows (dict_row w <$> export_data))]> fs
        end
  end.

(** ** Summary block of the narrative report *)

(** [s.isdigit()]: for an ASCII text, non-empty and decimal digits only;
    otherwise as the Unicode tables say. *)
Definition isdigit (w : World) (s : string) : bool :=
  if ascii_only s then ascii_isdigit s else unicode_isdigit w s.

(** [int(s)] for a text that passed [isdigit]. *)
Definition int_digits (w : World) (s : string) : exc Z :=
  if ascii_only s then Ok (int_of_digits 0 s)
  else
    match unicode_int w s with
    | Some n => Ok (Z.of_N n)
    | None => Raise ValueError
    end.

(** [str(v).isdigit()]: the text of an integer is all digits exactly when
    it is not negative; the texts of [None], of a boolean, of a list and of
    a dictionary never are. *)
Definition str_isdigit (w : World) (v : pyval) : bool :=
  match v with
  | PStr s => isdigit w s
  | PInt z => 0 <=? z
  | _ => false
  end.

(** [int(v)] for a value that passed [str_isdigit]. *)
Definition int_of (w : World) (v : pyval) : exc Z :=
  match v with
  | PStr s => int_digits w s
  | PInt z => Ok z
  | PBool b => Ok (if b then 1 else 0)
  | _ => Raise TypeError
  end.

(** [[int(v.get('play_count', 0)) for v in videos
      if str(v.get('play_count', '0')).isdigit()]]: the comprehension
    raises where [int] does. *)
Fixpoint valid_plays (w : World) (videos : list pydict) : exc (list Z) :=
  match videos with
  | [] => Ok []
  | v :: videos' =>
      if str_isdigit w (dget v "play_count" (PStr "0")) then
        n ← int_of w (dget v "play_count" (PInt 0));
        plays ← valid_plays w videos';
        Ok (n :: plays)
      else valid_plays w videos'
  end.

Definition sum (l : list Z) : Z := foldr Z.add 0 l.

(** [max] and [min] of a non-empty list, given as head and tail. *)
Definition max_of (x : Z) (l : list Z) : Z := foldl Z.max x l.
Definition min_of (x : Z) (l : list Z) : Z := foldl Z.min x l.

(** A comma after every third digit, on the digits in reverse order. *)
Fixpoint comma_groups (rev_digits : list ascii) : list ascii :=
  match rev_digits with
  | a :: b :: c :: ((_ :: _) as rest) =>
      a :: b :: c :: ","%char :: comma_groups rest
  | _ => rev_digits
  end.

(** [f"{num:,}"]. *)
Definition fmt_thousands (num : Z) : string :=
  let digits := String.list_ascii_of_string (str_int (Z.abs num)) in
  let body := String.string_of_list_ascii (rev (comma_groups (rev digits))) in
  if num <? 0 then "-" +:+ body else body.

(** [format_number] on an integer: the argument is neither ['N/A'] nor
    [None], [int(number)] is the number itself. *)
Definition format_number (number : Z) : string := fmt_thousands number.






(** ** Predicates used in the statements *)

(** First binding of a key in an association list. *)
Fixpoint assoc {A} (k : string) (l : list (string * A)) : option A :=
  match l with
  | [] => None
  | (k', v) :: l' => if String.eqb k' k then Some v else assoc k l'
  end.

Definition present {A} (o : option A) : bool :=
  match o with Some _ => true | None => false end.

(** A listed item as the data model has it: a title and an identifier that
    are strings, and an owner with name, numeric id and avatar. *)
Definition raw_list_item (video : pyval) : bool :=
  match video with
  | PDict d =>
      match d !! "title", d !! "bvid", d !! "owner" with
      | Some (PStr _), Some (PStr _), Some (PDict owner) =>
          present (owner !! "name") && present (owner !! "mid")
            && present (owner !! "face")
      | _, _, _ => false
      end
  | _ => false
  end.

(** What the structured sub-fetch returned can be formatted: the duration
    and the publish timestamp are integers (absent counts as 0), and the
    timestamp is 0 or a date the platform renders. *)
Definition renderable (w : World) (api_data : pydict) : bool :=
  match as_int (dget api_data "duration" (PInt 0)),
        as_int (dget api_data "pubdate" (PInt 0)) with
  | Some _, Some t => (t =? 0) || is_ok (strftime_local w t)
  | _, _ => false
  end.

(** The keys of an enriched record. *)
Definition enriched_fields : gset string :=
  list_to_set
    ["rank"; "title"; "desc"; "bvid"; "short_link"; "pic"; "first_frame";
     "pub_location"; "owner_name"; "owner_mid"; "owner_face";
     "play_count"; "danmaku_count"; "like_count"; "coin_count";
     "favorite_count"; "share_count"; "reply_count"; "duration";
     "duration_formatted"; "publish_time"; "tname"; "fetch_time"].

(** The dictionary [_get_video_stats_from_api] builds from the statistics
    object [stat] and the payload [data_data] of a successful reply. *)
Definition api_fields (stat data_data : pydict) : pydict :=
  list_to_map
    [("view", dget stat "view" (PInt 0));
     ("danmaku", dget stat "danmaku" (PInt 0));
     ("like", dget stat "like" (PInt 0));
     ("coin", dget stat "coin" (PInt 0));
     ("favorite", dget stat "favorite" (PInt 0));
     ("share", dget stat "share" (PInt 0));
     ("reply", dget stat "reply" (PInt 0));
     ("duration", dget data_data "duration" (PInt 0));
     ("pubdate", dget data_data "pubdate" (PInt 0));
     ("cid", dget data_data "cid" (PInt 0));
     ("tname", dget data_data "tname" (PStr ""))].

(** The cells written for a record: the text of each export field. *)
Definition cells_of (w : World) (video : pydict) : list string :=
  (λ field, csv_cell w (dget video field (PStr ""))) <$> export_fields.


(** ** Concrete worlds and items *)

Module Examples.

Definition owner : pyval :=
  PDict (list_to_map
           [("name", PStr "up"); ("mid", PInt 7); ("face", PStr "f.png")]).

Definition item (bvid : string) : pyval :=
  PDict (list_to_map
           [("title", PStr "demo"); ("bvid", PStr bvid); ("owner", owner)]).

(** The digits of a text made of ASCII digits, full-width digits
    (U+FF10 to U+FF19) and superscript twos (U+00B2), [None] standing for
    a superscript; no result for a text with another character. *)
Fixpoint demo_digits (s : string) : option (list (option N)) :=
  match s with
  | EmptyString => Some []
  | String a s1 =>
      if is_digit a then
        cons (Some (Z.to_N (digit_val a))) <$> demo_digits s1
      else
        match s1 with
        | String b s2 =>
            if Ascii.eqb a "194" && Ascii.eqb b "178" then
              cons None <$> demo_digits s2
            else
              match s2 with
              | String c s3 =>
                  if Ascii.eqb a "239" && Ascii.eqb b "188"
                     && (144 <=? nat_of_ascii c)%nat
                     && (nat_of_ascii c <=? 153)%nat
                  then
                    cons (Some (N.of_nat (nat_of_ascii c - 144)))
                      <$> demo_digits s3
                  else None
              | EmptyString => None
              end
        | EmptyString => None
        end
  end.

Definition demo_isdigit (s : string) : bool :=
  match demo_digits s with
  | Some (_ :: _) => true
  | _ => false
  end.

Fixpoint demo_value (acc : N) (digits : list (option N)) : option N :=
  match digits with
  | [] => Some acc
  | Some d :: digits' => demo_value (10 * acc + d) digits'
  | None :: _ => None
  end.

Definition demo_int (s : string) : option N :=
  match demo_digits s with
  | Some digits => demo_value 0 digits
  | None => None
  end.


(** No endpoint answers. *)
Definition offline : World :=
  {| popular := λ _ _, Raise RequestException;
     video_page := λ _ _, Raise RequestException;
     view_api := λ _ _, Raise RequestException;
     re_search := λ _ _, None;
     strftime_local := λ _, Ok "2024-01-01 08:00:00";
     now := λ _, "2024-05-01 12:00:00";
     str_container := λ _, "[]";
     file_stamp := "20240501_120000";
     writable := λ _, true;
     write_failure := λ _, None;
     unicode_isdigit := demo_isdigit;
     unicode_int := demo_int |}.

(** Two pages of items, then a page answered with an error code. *)
Definition two_pages : World :=
  {| popular := λ _ page,
       if page =? 1 then
         Ok {| env_code := 0; env_message := "0";
               env_list := [item "BV1a"; item "BV1b"] |}
       else if page =? 2 then
         Ok {| env_code := 0; env_message := "0";
               env_list := [item "BV1c"] |}
       else
         Ok {| env_code := -352; env_message := "风控校验失败";
               env_list := [item "BV1z"] |};
     video_page := video_page offline;
     view_api := view_api offline;
     re_search := re_search offline;
     strftime_local := strftime_local offline;
     now := now offline;
     str_container := str_container offline;
     file_stamp := file_stamp offline;
     writable := writable offline;
     write_failure := write_failure offline;
     unicode_isdigit := unicode_isdigit offline;
     unicode_int := unicode_int offline |}.

(** The listing with its second page replaced by the given reply. *)
Definition second_page (reply : exc envelope) : World :=
  {| popular := λ size page,
       if page =? 2 then reply else popular two_pages size page;
     video_page := video_page offline;
     view_api := view_api offline;
     re_search := re_search offline;
     strftime_local := strftime_local offline;
     now := now offline;
     str_container := str_container offline;
     file_stamp := file_stamp offline;
     writable := writable offline;
     write_failure := write_failure offline;
     unicode_isdigit := unicode_isdigit offline;
     unicode_int := unicode_int offline |}.

(** No file is written in full: [open] fails, or a write fails with the
    given number of bytes in the file. *)
Definition disk_full (written : option nat) : World :=
  {| popular := popular offline;
     video_page := video_page offline;
     view_api := view_api offline;
     re_search := re_search offline;
     strftime_local := strftime_local offline;
     now := now offline;
     str_container := str_container offline;
     file_stamp := file_stamp offline;
     writable := λ _, false;
     write_failure := λ _, written;
     unicode_isdigit := unicode_isdigit offline;
     unicode_int := unicode_int offline |}.

Definition reply_of (code : Z) (stat data_data : list (string * pyval))
    : pyval :=
  PDict (list_to_map
    [("code", PInt code);
     ("data", PDict (list_to_map (("stat", PDict (list_to_map stat))
                                    :: data_data)))]).

(** The page has no statistics sentence; the view API answers with the
    given payload. *)
Definition api_only (stat data_data : list (string * pyval)) : World :=
  {| popular := popular offline;
     video_page := λ _ _, Ok "<html></html>";
     view_api := λ _ _, Ok (reply_of 0 stat data_data);
     re_search := re_search offline;
     strftime_local := strftime_local offline;
     now := now offline;
     str_container := str_container offline;
     file_stamp := file_stamp offline;
     writable := writable offline;
     write_failure := write_failure offline;
     unicode_isdigit := unicode_isdigit offline;
     unicode_int := unicode_int offline |}.

(** The page carries the statistics sentence and the first pattern finds
    it; the view API answers as well. *)
Definition both_sources (m : re_match) (stat data_data : list (string * pyval))
    : World :=
  {| popular := popular offline;
     video_page := λ _ _, Ok "<html>...</html>";
     view_api := λ _ _, Ok (reply_of 0 stat data_data);
     re_search := λ _ _, Some m;
     strftime_local := strftime_local offline;
     now := now offline;
     str_container := str_container offline;
     file_stamp := file_stamp offline;
     writable := writable offline;
     write_failure := write_failure offline;
     unicode_isdigit := unicode_isdigit offline;
     unicode_int := unicode_int offline |}.

Definition scraped : re_match :=
  {| group1 := "5,000"; group2 := "12"; group3 := "300";
     group4 := "40"; group5 := "50"; group6 := "6" |}.

(** The scrape answers for rank 2 only, the view API for rank 1 only. *)
Definition flaky : World :=
  {| popular := popular two_pages;
     video_page := λ i _,
       if i =? 2 then Ok "<html>...</html>" else Raise RequestException;
     view_api := λ i _,
       if i =? 1 then
         Ok (reply_of 0 [("view", PInt 4000); ("reply", PInt 9)]
               [("duration", PInt 65); ("pubdate", PInt 1700000000);
                ("tname", PStr "音乐")])
       else Raise RequestException;
     re_search := λ _ _, Some scraped;
     strftime_local := strftime_local offline;
     now := now offline;
     str_container := str_container offline;
     file_stamp := file_stamp offline;
     writable := writable offline;
     write_failure := write_failure offline;
     unicode_isdigit := unicode_isdigit offline;
     unicode_int := unicode_int offline |}.


Definition three_items : list pyval := [item "BV1a"; item "BV1b"; item "BV1c"].

Definition play (v : pyval) : pydict := {[ "play_count" := v ]}.



Definition plain : pydict :=
  list_to_map
    [("rank", PInt 2); ("title", PStr "");
     ("play_count", PStr "N/A"); ("bvid", PStr "BV1b")].

End Examples.

(** ** Further predicates and parts of the program *)




(** A record carries the fields of the item it was built from: the
    required ones as found, the optional ones with [''] for a missing key,
    [short_link_v2] under the name [short_link]. *)
Definition carries (video : pyval) (r : pydict) : Prop :=
  ∃ d owner : pydict,
    video = PDict d ∧ d !! "owner" = Some (PDict owner) ∧
    r !! "title" = d !! "title" ∧ r !! "bvid" = d !! "bvid" ∧
    r !! "owner_name" = owner !! "name" ∧
    r !! "owner_mid" = owner !! "mid" ∧
    r !! "owner_face" = owner !! "face" ∧
    r !! "desc" = Some (dget d "desc" (PStr "")) ∧
    r !! "short_link" = Some (dget d "short_link_v2" (PStr "")) ∧
    r !! "pic" = Some (dget d "pic" (PStr "")) ∧
    r !! "first_frame" = Some (dget d "first_frame" (PStr "")) ∧
    r !! "pub_location" = Some (dget d "pub_location" (PStr "")).

(** Two records agree on every exported field. *)
Definition same_export (video video' : pydict) : Prop :=
  ∀ field, field ∈ export_fields → video !! field = video' !! field.

(** ** Interactive parameters *)

(** The two library functions [get_user_input] applies to a typed line:
    [str.strip], and [int], with [None] where it raises [ValueError]. *)
Record Console := {
  str_strip : string → string;
  int_of_str : string → option Z;
}.

(** What a typed line stands for: the default when it is blank, the number
    it spells otherwise. *)
Definition answer_of (c : Console) (dflt : Z) (line : string) : option Z :=
  match str_strip c line with
  | EmptyString => Some dflt
  | text => int_of_str c text
  end.

(** One [while True] loop of [get_user_input].  [inputs] are the lines
    [input()] has still to return; when they run out [input()] raises
    [EOFError], which the loop does not catch.  A line that is not a number
    ([ValueError], caught) or is out of range is answered with a message and
    the prompt is shown again. *)
Fixpoint ask (c : Console) (dflt : Z) (valid : Z → bool)
    (inputs : list string) : exc (Z * list string) :=
  match inputs with
  | [] => Raise OtherException
  | line :: inputs' =>
      match answer_of c dflt line with
      | Some n =>
          if valid n then Ok (n, inputs') else ask c dflt valid inputs'
      | None => ask c dflt valid inputs'
      end
  end.

Definition valid_page_size (n : Z) : bool := (1 <=? n) && (n <=? 100).
Definition valid_from_one (n : Z) : bool := 1 <=? n.

(** [get_user_input]: the three parameters and the lines left unread. *)
Definition get_user_input (c : Console) (inputs : list string)
    : exc (Z * Z * Z * list string) :=
  '(page_size, inputs) ← ask c 50 valid_page_size inputs;
  '(start_page, inputs) ← ask c 1 valid_from_one inputs;
  '(max_pages, inputs) ← ask c 1 valid_from_one inputs;
  Ok (page_size, start_page, max_pages, inputs).

(** A console that strips nothing and reads plain digit strings. *)
Definition plain_console : Console :=
  {| str_strip := λ s, s;
     int_of_str :=
       λ s, if ascii_isdigit s then Some (int_of_digits 0 s) else None |}.

(** ** Category distribution of the narrative report *)

(** The hashable values as dictionary keys: [True] is the key [1] and
    [False] the key [0]; lists and dictionaries are not hashable. *)
Inductive pykey :=
| KNone
| KInt (z : Z)
| KStr (s : string).

#[export] Instance pykey_eq_dec : EqDecision pykey.
Proof. solve_decision. Defined.

Definition key_of (v : pyval) : exc pykey :=
  match v with
  | PNone => Ok KNone
  | PBool b => Ok (KInt (if b then 1 else 0))
  | PInt z => Ok (KInt z)
  | PStr s => Ok (KStr s)
  | PList _ | PDict _ => Raise TypeError
  end.

(** [category_stats[category] = category_stats.get(category, 0) + 1] on a
    dictionary kept in insertion order. *)
Fixpoint bump (category : pykey) (stats : list (pykey * Z))
    : list (pykey * Z) :=
  match stats with
  | [] => [(category, 1)]
  | (k, n) :: stats' =>
      if decide (k = category) then (k, n + 1) :: stats'
      else (k, n) :: bump category stats'
  end.

Definition default_category : string := "未知分区".

(** The loop [for video in videos] that fills [category_stats]. *)
Fixpoint category_stats_from (videos : list pydict)
    (category_stats : list (pykey * Z)) : exc (list (pykey * Z)) :=
  match videos with
  | [] => Ok category_stats
  | video :: videos' =>
      category ← key_of (dget video "tname" (PStr default_category));
      category_stats_from videos' (bump category category_stats)
  end.

Definition category_stats (videos : list pydict) : exc (list (pykey * Z)) :=
  category_stats_from videos [].

(** [sorted(items, key=lambda x: x[1], reverse=True)]: the sort is stable,
    also under [reverse=True], so the result is the one arrangement by
    non-increasing count in which items of equal count keep their order.
    Here by insertion: an item goes behind the items of greater count and
    in front of the first item whose count is not greater. *)
Fixpoint insert_desc (x : pykey * Z) (l : list (pykey * Z))
    : list (pykey * Z) :=
  match l with
  | [] => [x]
  | y :: l' => if x.2 <? y.2 then y :: insert_desc x l' else x :: y :: l'
  end.

Definition sorted_desc (l : list (pykey * Z)) : list (pykey * Z) :=
  foldr insert_desc [] l.

(** Non-increasing count. *)
Definition count_desc (a b : pykey * Z) : Prop := b.2 <= a.2.

(** The categories in the order the report lists them. *)
Definition category_lines (videos : list pydict) : exc (list (pykey * Z)) :=
  stats ← category_stats videos; Ok (sorted_desc stats).

Definition tagged (tname : pyval) : pydict := {[ "tname" := tname ]}.
Lemma fmt_02d_two_digits z : 0 <= z < 100 → fmt_02d z = two_digits z.
Proof.
  intros Hz.
  assert (Hall : forallb (λ n, String.eqb (fmt_02d (Z.of_nat n))
                                  (two_digits (Z.of_nat n))) (seq 0 100) = true)
    by (vm_compute; reflexivity).
  rewrite forallb_forall in Hall.
  specialize (Hall (Z.to_nat z)).
  rewrite Z2Nat.id in Hall by lia.
  apply String.eqb_eq, Hall, in_seq. lia.
Qed.

(** C9.  [format_duration 0] is ["N/A"]; below one hour the result is the
    minute count, a colon and the seconds on two digits ([M:SS]); from one
    hour on it is the hour count, then minutes and seconds on two digits
    each ([H:MM:SS]); 65 gives ["1:05"] and 3665 gives ["1:01:05"]. *)
Theorem format_duration_shape :
  format_duration 0 = "N/A" ∧
  format_duration 65 = "1:05" ∧
  format_duration 3665 = "1:01:05" ∧
  (∀ s, 0 < s < 3600 →
     format_duration s = str_int (s / 60) +:+ ":" +:+ two_digits (s mod 60)) ∧
  (∀ s, 3600 <= s →
     format_duration s =
       str_int (s / 3600) +:+ ":" +:+ two_digits (s / 60 mod 60)
         +:+ ":" +:+ two_digits (s mod 60)).
Proof.
  split; [reflexivity|]. split; [vm_compute; reflexivity|].
  split; [vm_compute; reflexivity|]. split.
  - intros s Hs. unfold format_duration.
    destruct (Z.eqb_spec s 0) as [->|_]; [lia|].
    assert (Hm : 0 <= s / 60 < 60)
      by (split; [apply Z.div_pos; lia | apply Z.div_lt_upper_bound; lia]).
    rewrite (Z.div_small (s / 60) 60) by lia.
    rewrite (Z.mod_small (s / 60) 60) by lia.
    change (0 <? 0) with false. cbv iota.
    rewrite fmt_02d_two_digits by (pose proof (Z.mod_pos_bound s 60); lia).
    reflexivity.
  - intros s Hs. unfold format_duration.
    destruct (Z.eqb_spec s 0) as [->|_]; [lia|].
    rewrite Z.div_div by lia. change (60 * 60) with 3600.
    assert (Hh : 0 < s / 3600)
      by (apply Z.div_str_pos; lia).
    destruct (Z.ltb_spec 0 (s / 3600)) as [_|]; [|lia].
    rewrite !fmt_02d_two_digits
      by (first [ pose proof (Z.mod_pos_bound s 60); lia
                | pose proof (Z.mod_pos_bound (s / 60) 60); lia ]).
    reflexivity.
Qed.

Section Listing.
Variable w : World.
Variable page_size : Z.

Lemma fetch_pages_step page n acc :
  fetch_pages w page_size page (S n) acc =
    match page_items w page_size page with
    | [] => acc
    | _ :: _ =>
        fetch_pages w page_size (page + 1) n
          (acc ++ page_items w page_size page)
    end.
Proof.
  unfold page_items. simpl.
  destruct (popular w page_size page) as [data|e].
  - destruct (env_code data =? 0); simpl; [|reflexivity].
    destruct (env_list data); reflexivity.
  - destruct e; reflexivity.
Qed.

Lemma fetch_pages_acc n : ∀ page acc,
  fetch_pages w page_size page n acc =
    acc ++ fetch_pages w page_size page n [].
Proof.
  induction n as [|n IH]; intros page acc.
  - simpl. by rewrite app_nil_r.
  - rewrite !fetch_pages_step.
    destruct (page_items w page_size page) as [|v vs] eqn:Hp.
    + by rewrite app_nil_r.
    + rewrite (IH _ (acc ++ _)), (IH _ ([] ++ _)). simpl.
      by rewrite <- app_assoc.
Qed.

(** The result is the concatenation of a maximal run of contributing
    pages. *)
Lemma fetch_pages_prefix n : ∀ page,
  ∃ k : nat, (k ≤ n)%nat ∧
    fetch_pages w page_size page n [] =
      concat (map (page_items w page_size) (range_from page k)) ∧
    Forall (λ p, page_items w page_size p ≠ []) (range_from page k) ∧
    (k = n ∨ page_items w page_size (page + Z.of_nat k) = []).
Proof.
  induction n as [|n IH]; intros page.
  - exists 0%nat. simpl. auto.
  - rewrite fetch_pages_step.
    destruct (page_items w page_size page) as [|v vs] eqn:Hp.
    + exists 0%nat. simpl. rewrite Z.add_0_r.
      split; [lia|]. auto.
    + destruct (IH (page + 1)) as (k & Hk & Hres & Hall & Hmax).
      exists (S k). split; [lia|]. split; [|split].
      * rewrite fetch_pages_acc, Hres. simpl. by rewrite Hp.
      * simpl. constructor; [by rewrite Hp | done].
      * destruct Hmax as [->|Hmax]; [by left | right].
        by replace (page + Z.of_nat (S k)) with (page + 1 + Z.of_nat k)
          by lia.
Qed.

(** A page that contributes nothing ends the loop where it stands. *)
Lemma fetch_pages_stop k : ∀ page n,
  (k < n)%nat →
  Forall (λ p, page_items w page_size p ≠ []) (range_from page k) →
  page_items w page_size (page + Z.of_nat k) = [] →
  fetch_pages w page_size page n [] =
    concat (map (page_items w page_size) (range_from page k)).
Proof.
  induction k as [|k IH]; intros page n Hlt Hall Hstop.
  - destruct n as [|n]; [lia|]. rewrite fetch_pages_step.
    rewrite Z.add_0_r in Hstop. by rewrite Hstop.
  - destruct n as [|n]; [lia|]. rewrite fetch_pages_step.
    simpl in Hall. apply Forall_cons in Hall as [Hne Hall].
    destruct (page_items w page_size page) as [|v vs] eqn:Hp; [done|].
    rewrite fetch_pages_acc. simpl. rewrite Hp.
    change (v :: vs ++ ?l) with ((v :: vs) ++ l). f_equal.
    apply IH; [lia | done |].
    by replace (page + 1 + Z.of_nat k) with (page + Z.of_nat (S k)) by lia.
Qed.

Lemma concat_pages_length bound k : ∀ page,
  0 <= bound →
  (∀ p, Z.of_nat (length (page_items w page_size p)) <= bound) →
  Z.of_nat (length (concat (map (page_items w page_size)
                                (range_from page k))))
    <= bound * Z.of_nat k.
Proof.
  intros page Hb Hlen. revert page.
  induction k as [|k IH]; intros page; simpl; [lia|].
  rewrite length_app. specialize (IH (page + 1)). specialize (Hlen page).
  lia.
Qed.
End Listing.

(** C6.  For a page size in [1,100], a start page and a page count of at
    least 1, and page responses of at most [page_size] items each, the
    fetcher returns at most [page_size * max_pages] items, and the result is
    the concatenation, in fetch order and with each page's own order, of the
    lists of the first [k] pages, every one of which contributed items; the
    run of pages ends at [max_pages] or at the first page contributing
    nothing. *)
Theorem get_popular_videos_length_order (w : World) (page_size page_number max_pages : Z) :
  1 <= page_size <= 100 → 1 <= page_number → 1 <= max_pages →
  (∀ page data, popular w page_size page = Ok data →
     Z.of_nat (length (env_list data)) <= page_size) →
  Z.of_nat (length (get_popular_videos w page_size page_number max_pages))
    <= page_size * max_pages ∧
  ∃ k : nat, (k ≤ Z.to_nat max_pages)%nat ∧
    get_popular_videos w page_size page_number max_pages =
      concat (map (page_items w page_size) (range_from page_number k)) ∧
    Forall (λ p, page_items w page_size p ≠ []) (range_from page_number k) ∧
    (k = Z.to_nat max_pages ∨
     page_items w page_size (page_number + Z.of_nat k) = []).
Proof.
  intros Hps Hpn Hmp Hsize. unfold get_popular_videos.
  destruct (fetch_pages_prefix w page_size (Z.to_nat max_pages) page_number)
    as (k & Hk & Hres & Hall & Hmax).
  split; [|by exists k].
  rewrite Hres.
  etrans; [apply concat_pages_length with (bound := page_size); [lia|]|].
  - intros p. unfold page_items.
    destruct (popular w page_size p) as [data|e] eqn:Hp; simpl; [|lia].
    destruct (env_code data =? 0); simpl; [by eapply Hsize | lia].
  - apply Z.mul_le_mono_nonneg_l; lia.
Qed.

(** C5.  When the pages before page [page_number + k] all contributed
    their items and that page, still within the requested range, answers
    with a code other than the success code 0, the fetcher returns exactly
    the concatenation of the earlier pages' items: each once, in order, none
    lost.  The fetcher is a total function to lists, so it does not raise. *)
Theorem get_popular_videos_error_code (w : World)
    (page_size page_number max_pages : Z) (k : nat) (data : envelope) :
  (k < Z.to_nat max_pages)%nat →
  Forall (λ p, page_items w page_size p ≠ []) (range_from page_number k) →
  popular w page_size (page_number + Z.of_nat k) = Ok data →
  env_code data ≠ 0 →
  get_popular_videos w page_size page_number max_pages =
    concat (map (page_items w page_size) (range_from page_number k)).
Proof.
  intros Hk Hall Hpage Hcode. unfold get_popular_videos.
  apply fetch_pages_stop; [done | done |].
  unfold page_items. rewrite Hpage.
  by destruct (Z.eqb_spec (env_code data) 0).
Qed.


(** ** Dictionaries built from literals *)

(** Literal dictionaries are looked up through [assoc], never by unfolding
    the map. *)
#[global] Arguments list_to_map : simpl never.

Lemma lookup_list_to_map_assoc {A} (l : list (string * A)) (k : string) :
  (list_to_map l : gmap string A) !! k = assoc k l.
Proof.
  induction l as [|[k' v] l IH]; [apply lookup_empty|].
  rewrite list_to_map_cons. simpl.
  destruct (String.eqb_spec k' k) as [->|Hne].
  - apply lookup_insert_eq.
  - by rewrite lookup_insert_ne.
Qed.

Lemma dget_list_to_map (l : list (string * pyval)) k dflt :
  dget (list_to_map l) k dflt = default dflt (assoc k l).
Proof. unfold dget. by rewrite lookup_list_to_map_assoc. Qed.

(** ** The two sub-fetches *)

Lemma web_stats_cases w i bvid :
  _get_video_stats_from_web w i bvid = NA_stats ∨
  ∃ m, _get_video_stats_from_web w i bvid = stats_of_match m.
Proof.
  unfold _get_video_stats_from_web.
  destruct (video_page w i bvid) as [text|e]; [|by left].
  unfold mbind, exc_bind.
  destruct (first_match w patterns text) as [m|]; unfold try_except.
  - right. exists m. reflexivity.
  - left. reflexivity.
Qed.


(** ... and nothing else. *)
Lemma web_stats_other w i bvid k :
  k ∉ counter_fields → _get_video_stats_from_web w i bvid !! k = None.
Proof.
  intros Hk.
  destruct (web_stats_cases w i bvid) as [->|[m ->]];
    apply not_elem_of_list_to_map_1; exact Hk.
Qed.

Lemma exc_bind_ok {A B} (m : exc A) (f : A → exc B) b :
  m ≫= f = Ok b → ∃ a, m = Ok a ∧ f a = Ok b.
Proof. destruct m as [a|e]; simpl; [eauto | done]. Qed.

Lemma get_ok v k dflt x :
  get v k dflt = Ok x → ∃ d, v = PDict d ∧ x = dget d k dflt.
Proof. destruct v; simpl; try done. intros [= <-]. eauto. Qed.

Lemma getitem_ok v k x :
  getitem v k = Ok x → ∃ d, v = PDict d ∧ d !! k = Some x.
Proof.
  destruct v; simpl; try done.
  destruct (d !! k) eqn:Hd; [|done]. intros [= <-]. eauto.
Qed.

(** The structured sub-fetch returns nothing, or the eleven fields read
    from a successful reply. *)
Lemma api_stats_cases w i bvid :
  _get_video_stats_from_api w i bvid = ∅ ∨
  ∃ data code data_data stat,
    view_api w i bvid = Ok (PDict data) ∧
    data !! "code" = Some code ∧ eq_zero code = true ∧
    data !! "data" = Some (PDict data_data) ∧
    data_data !! "stat" = Some (PDict stat) ∧
    _get_video_stats_from_api w i bvid = api_fields stat data_data.
Proof.
  unfold _get_video_stats_from_api.
  destruct (view_api w i bvid) as [data|e]; simpl; [|by left].
  destruct (getitem data "code") as [code|e] eqn:Hcode; simpl; [|by left].
  apply getitem_ok in Hcode as (d & -> & Hcode).
  destruct (eq_zero code) eqn:Hzero; simpl; [|by left].
  destruct (d !! "data") as [dd|] eqn:Hdd; simpl; [|by left].
  destruct dd as [| | | | |data_data]; simpl; try by left.
  destruct (data_data !! "stat") as [st|] eqn:Hst; simpl; [|by left].
  destruct st as [| | | | |stat]; simpl; try by left.
  right. exists d, code, data_data, stat. done.
Qed.

Lemma api_stats_counter w i bvid k :
  k ∈ counter_fields → _get_video_stats_from_api w i bvid !! k = None.
Proof.
  intros Hk.
  destruct (api_stats_cases w i bvid)
    as [->|(data & code & dd & stat & _ & _ & _ & _ & _ & ->)];
    [apply lookup_empty|].
  unfold api_fields. rewrite lookup_list_to_map_assoc.
  repeat (apply elem_of_cons in Hk as [->|Hk]; [reflexivity|]).
  by apply elem_of_nil in Hk.
Qed.

(** In the merged details the six counters are the scrape result's. *)
Lemma details_counter w i bvid k :
  k ∈ counter_fields →
  get_video_details w i bvid !! k = _get_video_stats_from_web w i bvid !! k.
Proof.
  intros Hk. unfold get_video_details.
  apply lookup_union_r. by apply api_stats_counter.
Qed.

(** Every other key is the structured result's. *)
Lemma details_other w i bvid k :
  k ∉ counter_fields →
  get_video_details w i bvid !! k = _get_video_stats_from_api w i bvid !! k.
Proof.
  intros Hk. unfold get_video_details.
  apply lookup_union_l. by apply web_stats_other.
Qed.


Lemma dget_details_other w i bvid k dflt :
  k ∉ counter_fields →
  dget (get_video_details w i bvid) k dflt =
    dget (_get_video_stats_from_api w i bvid) k dflt.
Proof. intros Hk. unfold dget. by rewrite details_other. Qed.

(** What a successful enrichment read from the item. *)
Lemma enrich_inv w i video r :
  enrich w i video = Ok r →
  ∃ d owner title bvid owner_name owner_mid owner_face df pt,
    video = PDict d ∧
    d !! "title" = Some title ∧ d !! "bvid" = Some bvid ∧
    d !! "owner" = Some (PDict owner) ∧
    owner !! "name" = Some owner_name ∧ owner !! "mid" = Some owner_mid ∧
    owner !! "face" = Some owner_face ∧
    format_duration_py
      (dget (get_video_details w i bvid) "duration" (PInt 0)) = Ok df ∧
    format_timestamp w
      (dget (get_video_details w i bvid) "pubdate" (PInt 0)) = Ok pt ∧
    r = enriched_video i title (dget d "desc" (PStr "")) bvid
          (dget d "short_link_v2" (PStr "")) (dget d "pic" (PStr ""))
          (dget d "first_frame" (PStr "")) (dget d "pub_location" (PStr ""))
          owner_name owner_mid owner_face (get_video_details w i bvid)
          df pt (now w i).
Proof.
  unfold enrich. intros H.
  apply exc_bind_ok in H as (shown & Hshown & H).
  apply getitem_ok in Hshown as (d & -> & Htitle).
  apply exc_bind_ok in H as (_ & _ & H).
  simpl in H. rewrite Htitle in H. simpl in H.
  destruct (d !! "bvid") as [bvid|] eqn:Hbvid; simpl in H; [|done].
  destruct (d !! "owner") as [owner|] eqn:Howner; simpl in H; [|done].
  destruct (getitem owner "name") as [owner_name|] eqn:Hname;
    simpl in H; [|done].
  apply getitem_ok in Hname as (o & -> & Hname).
  simpl in H.
  destruct (o !! "mid") as [owner_mid|] eqn:Hmid; simpl in H; [|done].
  destruct (o !! "face") as [owner_face|] eqn:Hface; simpl in H; [|done].
  apply exc_bind_ok in H as (df & Hdf & H).
  apply exc_bind_ok in H as (pt & Hpt & H).
  injection H as <-.
  exists d, o, shown, bvid, owner_name, owner_mid, owner_face, df, pt.
  done.
Qed.

(** ** Enrichment returns *)

Ltac not_counter :=
  let H := fresh in
  intros H; repeat (apply elem_of_cons in H as [?|H]; [done|]);
  by apply elem_of_nil in H.

Lemma renderable_formats w api_data :
  renderable w api_data = true →
  ∃ df pt,
    format_duration_py (dget api_data "duration" (PInt 0)) = Ok df ∧
    format_timestamp w (dget api_data "pubdate" (PInt 0)) = Ok pt.
Proof.
  unfold renderable, format_duration_py, format_timestamp.
  destruct (as_int (dget api_data "duration" (PInt 0))) as [z|]; [|done].
  destruct (as_int (dget api_data "pubdate" (PInt 0))) as [t|]; [|done].
  destruct (t =? 0); simpl; [eauto|].
  destruct (strftime_local w t); [eauto | done].
Qed.


Lemma dom_enriched_video i title desc bvid short_link pic first_frame
    pub_location owner_name owner_mid owner_face details df pt ft :
  dom (enriched_video i title desc bvid short_link pic first_frame
         pub_location owner_name owner_mid owner_face details df pt ft)
    = enriched_fields.
Proof. unfold enriched_video. by rewrite dom_list_to_map_L. Qed.

(** A listed item whose structured data can be formatted is enriched. *)
Lemma enrich_returns w i video bvid :
  raw_list_item video = true →
  getitem video "bvid" = Ok bvid →
  renderable w (_get_video_stats_from_api w i bvid) = true →
  ∃ r, enrich w i video = Ok r ∧ dom r = enriched_fields.
Proof.
  intros Hitem Hbvid Hrender.
  destruct video as [| | | | |d]; try done. simpl in Hitem, Hbvid.
  destruct (d !! "title") as [[| | |title| |]|] eqn:Htitle; try done.
  destruct (d !! "bvid") as [[| | |b| |]|] eqn:Hb; try done.
  destruct (d !! "owner") as [[| | | | |owner]|] eqn:Howner; try done.
  destruct (owner !! "name") as [owner_name|] eqn:Hname; [|done].
  destruct (owner !! "mid") as [owner_mid|] eqn:Hmid; [|done].
  destruct (owner !! "face") as [owner_face|] eqn:Hface; [|done].
  injection Hbvid as <-.
  apply renderable_formats in Hrender as (df & pt & Hdf & Hpt).
  unfold enrich. simpl. rewrite Htitle, Hb, Howner. simpl.
  rewrite Hname, Hmid, Hface. simpl.
  rewrite !dget_details_other by not_counter.
  rewrite Hdf, Hpt. simpl.
  eexists. split; [reflexivity|]. apply dom_enriched_video.
Qed.




Lemma enrich_from_returns w videos : ∀ i acc,
  Forall (λ video, raw_list_item video = true) videos →
  (∀ j bvid, renderable w (_get_video_stats_from_api w j bvid) = true) →
  ∃ records, enrich_from w i videos acc = Ok records.
Proof.
  induction videos as [|video videos IH]; intros i acc Hitems Hrender; simpl.
  - eauto.
  - apply Forall_cons in Hitems as [Hitem Hitems].
    assert (∃ bvid, getitem video "bvid" = Ok bvid) as [bvid Hbvid].
    { destruct video as [| | | | |d]; try done. simpl in *.
      destruct (d !! "title") as [[]|]; try done.
      destruct (d !! "bvid"); [eauto | done]. }
    destruct (enrich_returns w i video bvid Hitem Hbvid (Hrender _ _))
      as (r & -> & _).
    simpl. by apply IH.
Qed.




Lemma format_duration_shape_witness :
  format_duration 125 = "2:05" ∧ format_duration 7322 = "2:02:02".
Proof.
  destruct format_duration_shape as (_ & _ & _ & Hshort & Hlong).
  split.
  - rewrite (Hshort 125) by lia. vm_compute. reflexivity.
  - rewrite (Hlong 7322) by lia. vm_compute. reflexivity.
Defined.

Lemma get_popular_videos_length_order_witness :
  Z.of_nat (length (get_popular_videos Examples.two_pages 50 1 5)) <= 50 * 5 ∧
  ∃ k : nat, (k ≤ Z.to_nat 5)%nat ∧
    get_popular_videos Examples.two_pages 50 1 5 =
      concat (map (page_items Examples.two_pages 50) (range_from 1 k)) ∧
    Forall (λ p, page_items Examples.two_pages 50 p ≠ []) (range_from 1 k) ∧
    (k = Z.to_nat 5 ∨
     page_items Examples.two_pages 50 (1 + Z.of_nat k) = []).
Proof.
  apply (get_popular_videos_length_order Examples.two_pages 50 1 5);
    [lia | lia | lia |].
  intros page data. simpl.
  destruct (page =? 1); [|destruct (page =? 2)];
    intros [= <-]; simpl; lia.
Defined.

Lemma get_popular_videos_error_code_witness :
  get_popular_videos Examples.two_pages 50 1 5 =
    [Examples.item "BV1a"; Examples.item "BV1b"; Examples.item "BV1c"].
Proof.
  apply (get_popular_videos_error_code Examples.two_pages 50 1 5 2
           {| env_code := -352; env_message := "风控校验失败";
              env_list := [Examples.item "BV1z"] |}).
  - simpl. lia.
  - repeat constructor; discriminate.
  - reflexivity.
  - simpl. lia.
Defined.





(** C1, the code at the failing input.  The page has no statistics
    sentence, so the scrape sub-fetch yields ["N/A"] for the play count;
    the structured sub-fetch yields 4000; the record's play count is
    ["N/A"], not 4000. *)
Theorem merged_counter_ignores_structured_value :
  let w := Examples.api_only [("view", PInt 4000)] [] in
  _get_video_stats_from_web w 1 (PStr "BV1") !! "play_count"
    = Some (PStr "N/A") ∧
  _get_video_stats_from_api w 1 (PStr "BV1") !! "view" = Some (PInt 4000) ∧
  (.!! "play_count") <$> enrich w 1 (Examples.item "BV1")
    = Ok (Some (PStr "N/A")).
Proof. repeat split; vm_compute; reflexivity. Qed.

(** ** Fields read from the structured sub-fetch only *)

Ltac field_of_record :=
  unfold enriched_video; rewrite lookup_list_to_map_assoc; reflexivity.

(** C8, counterexample.  With the structured sub-fetch failed the reply
    count of the record is ["N/A"], not 0; with a successful reply that has
    no category the category of the record is the empty string, not the
    unknown sentinel. *)
Lemma reply_count_default_is_not_zero :
  _get_video_stats_from_api Examples.offline 1 (PStr "BV1") = ∅ ∧
  (.!! "reply_count") <$> enrich Examples.offline 1 (Examples.item "BV1")
    = Ok (Some (PStr "N/A")) ∧
  (.!! "tname") <$> enrich (Examples.api_only [] []) 1 (Examples.item "BV1")
    = Ok (Some (PStr "")).
Proof. repeat split; vm_compute; reflexivity. Qed.

(** C8, as amended.  Reply count, duration, formatted duration, publish
    time and category of a record are functions of the structured
    sub-fetch's result alone.  When that sub-fetch returned nothing they
    are ["N/A"], 0, ["N/A"], the unknown sentinel and the unknown sentinel;
    when it returned the fields of a successful reply, a field the reply
    lacks counts as 0 (reply count, duration, publish timestamp) or as the
    empty string (category). *)
Theorem structured_fields (w : World) (i : Z) (video bvid : pyval) (r : pydict) :
  getitem video "bvid" = Ok bvid →
  enrich w i video = Ok r →
  let api_data := _get_video_stats_from_api w i bvid in
  (∃ df pt,
     format_duration_py (dget api_data "duration" (PInt 0)) = Ok df ∧
     format_timestamp w (dget api_data "pubdate" (PInt 0)) = Ok pt ∧
     r !! "reply_count" = Some (dget api_data "reply" (PStr NA)) ∧
     r !! "duration" = Some (dget api_data "duration" (PInt 0)) ∧
     r !! "duration_formatted" = Some (PStr df) ∧
     r !! "publish_time" = Some (PStr pt) ∧
     r !! "tname" = Some (dget api_data "tname" (PStr unknown))) ∧
  (api_data = ∅ →
     r !! "reply_count" = Some (PStr NA) ∧
     r !! "duration" = Some (PInt 0) ∧
     r !! "duration_formatted" = Some (PStr NA) ∧
     r !! "publish_time" = Some (PStr unknown) ∧
     r !! "tname" = Some (PStr unknown)) ∧
  (api_data ≠ ∅ →
     ∃ data data_data stat pt,
       view_api w i bvid = Ok (PDict data) ∧
       data !! "data" = Some (PDict data_data) ∧
       data_data !! "stat" = Some (PDict stat) ∧
       format_timestamp w (dget data_data "pubdate" (PInt 0)) = Ok pt ∧
       r !! "reply_count" = Some (dget stat "reply" (PInt 0)) ∧
       r !! "duration" = Some (dget data_data "duration" (PInt 0)) ∧
       r !! "publish_time" = Some (PStr pt) ∧
       r !! "tname" = Some (dget data_data "tname" (PStr ""))).
Proof.
  intros Hbvid H api_data.
  apply enrich_inv in H
    as (d & o & t & b & n & m & f & df & pt
        & -> & _ & Hb & _ & _ & _ & _ & Hdf & Hpt & ->).
  simpl in Hbvid. rewrite Hb in Hbvid. injection Hbvid as ->.
  rewrite dget_details_other in Hdf, Hpt by not_counter.
  fold api_data in Hdf, Hpt.
  assert (Hreply : enriched_video i t (dget d "desc" (PStr "")) bvid
            (dget d "short_link_v2" (PStr "")) (dget d "pic" (PStr ""))
            (dget d "first_frame" (PStr "")) (dget d "pub_location" (PStr ""))
            n m f (get_video_details w i bvid) df pt (now w i)
            !! "reply_count" = Some (dget api_data "reply" (PStr NA))).
  { rewrite <- (dget_details_other w i bvid "reply") by not_counter.
    field_of_record. }
  assert (Hdur : enriched_video i t (dget d "desc" (PStr "")) bvid
            (dget d "short_link_v2" (PStr "")) (dget d "pic" (PStr ""))
            (dget d "first_frame" (PStr "")) (dget d "pub_location" (PStr ""))
            n m f (get_video_details w i bvid) df pt (now w i)
            !! "duration" = Some (dget api_data "duration" (PInt 0))).
  { rewrite <- (dget_details_other w i bvid "duration") by not_counter.
    field_of_record. }
  assert (Htname : enriched_video i t (dget d "desc" (PStr "")) bvid
            (dget d "short_link_v2" (PStr "")) (dget d "pic" (PStr ""))
            (dget d "first_frame" (PStr "")) (dget d "pub_location" (PStr ""))
            n m f (get_video_details w i bvid) df pt (now w i)
            !! "tname" = Some (dget api_data "tname" (PStr unknown))).
  { rewrite <- (dget_details_other w i bvid "tname") by not_counter.
    field_of_record. }
  assert (Hdfmt : enriched_video i t (dget d "desc" (PStr "")) bvid
            (dget d "short_link_v2" (PStr "")) (dget d "pic" (PStr ""))
            (dget d "first_frame" (PStr "")) (dget d "pub_location" (PStr ""))
            n m f (get_video_details w i bvid) df pt (now w i)
            !! "duration_formatted" = Some (PStr df)) by field_of_record.
  assert (Hptime : enriched_video i t (dget d "desc" (PStr "")) bvid
            (dget d "short_link_v2" (PStr "")) (dget d "pic" (PStr ""))
            (dget d "first_frame" (PStr "")) (dget d "pub_location" (PStr ""))
            n m f (get_video_details w i bvid) df pt (now w i)
            !! "publish_time" = Some (PStr pt)) by field_of_record.
  rewrite Hreply, Hdur, Htname, Hdfmt, Hptime.
  split; [|split].
  - exists df, pt. done.
  - intros Hempty. rewrite Hempty in *.
    injection Hdf as <-. injection Hpt as <-. done.
  - intros Hne.
    destruct (api_stats_cases w i bvid)
      as [Hempty|(data & code & dd & stat & Hview & _ & _ & Hdd & Hstat & Hapi)];
      [done|].
    fold api_data in Hapi. rewrite Hapi in *.
    exists data, dd, stat, pt.
    unfold api_fields in *. rewrite !dget_list_to_map in *.
    done.
Qed.

Lemma structured_fields_witness :
  ∃ r, enrich Examples.flaky 1 (Examples.item "BV1a") = Ok r ∧
    r !! "reply_count" = Some (PInt 9) ∧
    r !! "duration" = Some (PInt 65) ∧
    r !! "tname" = Some (PStr "音乐").
Proof.
  destruct (enrich_returns Examples.flaky 1 (Examples.item "BV1a")
              (PStr "BV1a")) as (r & Hr & _);
    [vm_compute; reflexivity ..|].
  exists r. split; [exact Hr|].
  destruct (structured_fields Examples.flaky 1 (Examples.item "BV1a")
              (PStr "BV1a") r) as ((df & pt & _ & _ & Hreply & Hdur & _ & _ & Htname) & _ & _).
  - vm_compute. reflexivity.
  - exact Hr.
  - rewrite Hreply, Hdur, Htname. repeat split; vm_compute; reflexivity.
Defined.

(** ** Summary block *)

Lemma max_of_upper l : ∀ x y, y ∈ x :: l → y <= max_of x l.
Proof.
  unfold max_of. induction l as [|z l IH]; intros x y Hy; simpl.
  - apply list_elem_of_singleton in Hy. lia.
  - assert (Hm : x `max` z <= foldl Z.max (x `max` z) l) by (apply IH; left).
    apply elem_of_cons in Hy as [Hy|Hy]; [lia|].
    apply elem_of_cons in Hy as [Hy|Hy]; [lia|].
    apply IH. by right.
Qed.

Lemma max_of_elem l : ∀ x, max_of x l ∈ x :: l.
Proof.
  unfold max_of. induction l as [|z l IH]; intros x; simpl; [left|].
  specialize (IH (x `max` z)). apply elem_of_cons in IH as [->|IH].
  - destruct (Z.max_spec x z) as [[_ ->]|[_ ->]]; [right; left | left].
  - by do 2 right.
Qed.

Lemma min_of_lower l : ∀ x y, y ∈ x :: l → min_of x l <= y.
Proof.
  unfold min_of. induction l as [|z l IH]; intros x y Hy; simpl.
  - apply list_elem_of_singleton in Hy. lia.
  - assert (Hm : foldl Z.min (x `min` z) l <= x `min` z) by (apply IH; left).
    apply elem_of_cons in Hy as [Hy|Hy]; [lia|].
    apply elem_of_cons in Hy as [Hy|Hy]; [lia|].
    apply IH. by right.
Qed.

Lemma min_of_elem l : ∀ x, min_of x l ∈ x :: l.
Proof.
  unfold min_of. induction l as [|z l IH]; intros x; simpl; [left|].
  specialize (IH (x `min` z)). apply elem_of_cons in IH as [->|IH].
  - destruct (Z.min_spec x z) as [[_ ->]|[_ ->]]; [left | right; left].
  - by do 2 right.
Qed.

Lemma is_digit_val c : is_digit c = true → 0 <= digit_val c <= 9.
Proof.
  unfold is_digit, digit_val. intros H.
  apply andb_prop in H as [H1 H2].
  apply Nat.leb_le in H1, H2. lia.
Qed.

Lemma int_of_digits_nonneg s : ∀ acc,
  all_digits s = true → 0 <= acc → 0 <= int_of_digits acc s.
Proof.
  induction s as [|c s IH]; intros acc Hs Hacc; simpl in *; [done|].
  apply andb_prop in Hs as [Hc Hs]. apply IH; [done|].
  pose proof (is_digit_val c Hc). lia.
Qed.



Lemma int_digits_nonneg (w : World) (s : string) (n : Z) :
  isdigit w s = true → int_digits w s = Ok n → 0 <= n.
Proof.
  unfold isdigit, int_digits. destruct (ascii_only s).
  - intros Hs [= <-]. apply int_of_digits_nonneg; [by destruct s | done].
  - intros _. destruct (unicode_int w s); [|done]. intros [= <-]. lia.
Qed.

Lemma valid_plays_cons (w : World) (video : pydict) (videos : list pydict) :
  valid_plays w (video :: videos) =
    if str_isdigit w (dget video "play_count" (PStr "0")) then
      n ← int_of w (dget video "play_count" (PInt 0));
      plays ← valid_plays w videos;
      Ok (n :: plays)
    else valid_plays w videos.
Proof. reflexivity. Qed.



Lemma int_of_nonneg (w : World) (video : pydict) (n : Z) :
  str_isdigit w (dget video "play_count" (PStr "0")) = true →
  int_of w (dget video "play_count" (PInt 0)) = Ok n → 0 <= n.
Proof.
  unfold dget.
  destruct (video !! "play_count") as [[| |z|s| |]|]; simpl; try done.
  - intros Hz [= <-]. by apply Z.leb_le.
  - apply int_digits_nonneg.
  - intros _ [= <-]. done.
Qed.

Lemma valid_plays_nonneg (w : World) (videos : list pydict) :
  ∀ plays, valid_plays w videos = Ok plays → Forall (λ n, 0 <= n) plays.
Proof.
  induction videos as [|video videos IH]; intros plays H.
  - injection H as <-. constructor.
  - rewrite valid_plays_cons in H.
    destruct (str_isdigit w _) eqn:Hdigit; [|by apply IH].
    destruct (int_of w _) as [n|] eqn:Hn; [|done]. simpl in H.
    destruct (valid_plays w videos) as [plays'|]; [|done].
    injection H as <-.
    constructor; [by eapply int_of_nonneg | by apply IH].
Qed.





(** ** The tabular text read back *)

Module CsvFacts.
Import Csv.

Lemma append_nil_l (s : string) : EmptyString +:+ s = s.
Proof. reflexivity. Qed.

Lemma append_cons (x : ascii) (a s : string) :
  String x a +:+ s = String x (a +:+ s).
Proof. reflexivity. Qed.

Lemma append_snoc (a : string) (c : ascii) (s : string) :
  (a +:+ String c EmptyString) +:+ s = a +:+ String c s.
Proof.
  induction a as [|x a IH]; [done|].
  rewrite !append_cons. by f_equal.
Qed.

Lemma append_empty_r (a : string) : a +:+ EmptyString = a.
Proof.
  induction a as [|x a IH]; [done|]. rewrite append_cons. by f_equal.
Qed.

Lemma append_assoc (a b c : string) :
  (a +:+ b) +:+ c = a +:+ (b +:+ c).
Proof.
  induction a as [|x a IH]; [done|]. rewrite !append_cons. by f_equal.
Qed.

Lemma feed_cons (c : ascii) (s : string) (r : reader) :
  feed r (String c s) = feed (step r c) s.
Proof. reflexivity. Qed.

Lemma feed_app (a b : string) : ∀ r, feed r (a +:+ b) = feed (feed r a) b.
Proof.
  induction a as [|x a IH]; intros r; [done|].
  rewrite append_cons. simpl. apply IH.
Qed.

Lemma is_special_false c :
  is_special c = false →
  Ascii.eqb c comma = false ∧ Ascii.eqb c dquote = false ∧
  Ascii.eqb c CR = false ∧ Ascii.eqb c LF = false.
Proof.
  unfold is_special. intros H.
  apply orb_false_elim in H as [H HLF].
  apply orb_false_elim in H as [H HCR].
  apply orb_false_elim in H as [Hcomma Hdq]. done.
Qed.

(** An unquoted field under way takes ordinary characters as they come. *)
Lemma feed_plain (s : string) : ∀ r,
  has_special s = false → st r = IN_FIELD →
  feed r s =
    {| st := IN_FIELD; field := field r +:+ s;
       fields := fields r; records := records r |}.
Proof.
  induction s as [|c s IH]; intros r Hs Hst; simpl.
  - rewrite append_empty_r. destruct r; simpl in *; by subst.
  - simpl in Hs. apply orb_false_elim in Hs as [Hc Hs].
    apply is_special_false in Hc as (Hcomma & Hdq & HCR & HLF).
    unfold step. rewrite Hst, HLF, HCR, Hcomma.
    rewrite IH by done. simpl. by rewrite append_snoc.
Qed.

(** Inside quotes every character is taken, a doubled quote as one. *)
Lemma feed_quoted (s : string) : ∀ r,
  st r = IN_QUOTED_FIELD →
  feed r (double_quotes s) =
    {| st := IN_QUOTED_FIELD; field := field r +:+ s;
       fields := fields r; records := records r |}.
Proof.
  induction s as [|c s IH]; intros r Hst; simpl.
  - rewrite append_empty_r. destruct r; simpl in *; by subst.
  - destruct (Ascii.eqb_spec c dquote) as [->|Hc]; simpl.
    + unfold step at 2. rewrite Hst. simpl.
      rewrite IH by done. simpl. by rewrite append_snoc.
    + unfold step. rewrite Hst.
      apply Ascii.eqb_neq in Hc. rewrite Hc.
      rewrite IH by done. simpl. by rewrite append_snoc.
Qed.

Definition field_start (s : rstate) : Prop :=
  s = START_RECORD ∨ s = START_FIELD.

(** After the text of a field the reader holds the field's content, in a
    state from which a delimiter or a line end saves it. *)
Lemma feed_field (cell : string) (r : reader) :
  field_start (st r) → field r = EmptyString →
  ∃ s, feed r (write_field cell) =
         {| st := s; field := cell; fields := fields r;
            records := records r |} ∧
       (s = IN_FIELD ∨ s = QUOTE_IN_QUOTED_FIELD ∨
        (cell = EmptyString ∧ s = st r)).
Proof.
  intros Hst Hfield. unfold write_field.
  destruct (has_special cell) eqn:Hsp.
  - exists QUOTE_IN_QUOTED_FIELD. split; [|auto].
    change (String dquote ?s) with (String dquote EmptyString +:+ s).
    rewrite !feed_app.
    assert (Hq : feed r (String dquote EmptyString) =
              set_state r IN_QUOTED_FIELD).
    { simpl. unfold step. by destruct Hst as [-> | ->]. }
    rewrite Hq, feed_quoted by done. simpl.
    rewrite Hfield. reflexivity.
  - destruct cell as [|c cell].
    + exists (st r). split; [|auto]. simpl.
      destruct r; simpl in *; by subst.
    + exists IN_FIELD. split; [|auto]. simpl in *.
      apply orb_false_elim in Hsp as [Hc Hsp].
      apply is_special_false in Hc as (Hcomma & Hdq & HCR & HLF).
      assert (Hfirst : step r c = add_char r IN_FIELD c).
      { unfold step, at_start_record, at_start_field.
        destruct Hst as [-> | ->]; by rewrite HLF, HCR, Hdq, Hcomma. }
      rewrite Hfirst, feed_plain by done. simpl.
      by rewrite Hfield.
Qed.

(** A delimiter after a field saves it and starts the next one. *)
Lemma step_comma (r : reader) :
  st r = START_RECORD ∨ st r = START_FIELD ∨ st r = IN_FIELD ∨
    st r = QUOTE_IN_QUOTED_FIELD →
  step r comma = save_field r START_FIELD.
Proof. unfold step. by intros [-> | [-> | [-> | ->]]]. Qed.

(** A line end after a field saves it and closes the record. *)
Lemma feed_crlf (r : reader) :
  st r = START_FIELD ∨ st r = IN_FIELD ∨ st r = QUOTE_IN_QUOTED_FIELD →
  feed r (String CR (String LF EmptyString)) =
    {| st := START_RECORD; field := EmptyString; fields := [];
       records := rev (field r :: fields r) :: records r |}.
Proof. simpl. unfold step at 2. by intros [-> | [-> | ->]]. Qed.

Lemma write_field_empty (cell : string) :
  write_field cell = EmptyString → cell = EmptyString.
Proof.
  unfold write_field. destruct (has_special cell); [done|]. auto.
Qed.

Lemma join_fields_cons (cell cell' : string) (cells : list string) :
  join_fields (cell :: cell' :: cells) =
    write_field cell +:+ String comma (join_fields (cell' :: cells)).
Proof. reflexivity. Qed.

Lemma join_fields_empty (cells : list string) :
  join_fields cells = EmptyString → cells = [] ∨ cells = [EmptyString].
Proof.
  destruct cells as [|cell [|cell' cells]]; [auto | |].
  - simpl. intros H%write_field_empty. subst. auto.
  - rewrite join_fields_cons. destruct (write_field cell); done.
Qed.

(** The fields of a line, then its end, add one record. *)
Lemma feed_line (cells : list string) : ∀ r,
  cells ≠ [] →
  st r = START_FIELD ∨
    (st r = START_RECORD ∧ join_fields cells ≠ EmptyString) →
  field r = EmptyString →
  feed r (join_fields cells +:+ String CR (String LF EmptyString)) =
    {| st := START_RECORD; field := EmptyString; fields := [];
       records := rev (rev cells ++ fields r) :: records r |}.
Proof.
  induction cells as [|cell cells IH]; intros r Hne Hst Hfield; [done|].
  destruct cells as [|cell' cells].
  - simpl join_fields. rewrite feed_app.
    destruct (feed_field cell r) as (s & -> & Hs); [|done|].
    { destruct Hst as [->|[-> _]]; [by right | by left]. }
    rewrite feed_crlf; [done|]. simpl.
    destruct Hs as [->|[->|[-> ->]]]; [auto | auto |].
    destruct Hst as [Hst|[_ Hjoin]]; [auto | done].
  - rewrite join_fields_cons, append_assoc, append_cons, feed_app.
    destruct (feed_field cell r) as (s & -> & Hs); [|done|].
    { destruct Hst as [->|[-> _]]; [by right | by left]. }
    rewrite feed_cons, step_comma.
    2:{ cbn [st]. destruct Hs as [->|[->|[_ ->]]]; [auto | auto |].
        destruct Hst as [->|[-> _]]; auto. }
    rewrite IH; [|done|by left|done].
    cbn [save_field fields records field]. do 2 f_equal.
    change (rev (cell :: cell' :: cells)) with (rev (cell' :: cells) ++ [cell]).
    by rewrite <- app_assoc.
Qed.

Lemma feed_row (cells : list string) (r : reader) :
  st r = START_RECORD → field r = EmptyString → fields r = [] →
  feed r (write_row cells) =
    {| st := START_RECORD; field := EmptyString; fields := [];
       records := cells :: records r |}.
Proof.
  intros Hst Hfield Hfields. unfold write_row.
  destruct r as [s f fs rs]. simpl in Hst, Hfield, Hfields. subst.
  destruct cells as [|cell cells]; [reflexivity|].
  destruct (join_fields (cell :: cells)) eqn:Hjoin.
  - apply join_fields_empty in Hjoin as [?|[= -> ->]]; [done|].
    reflexivity.
  - rewrite <- Hjoin. rewrite feed_line; [|done|right|done].
    + cbn [fields records]. by rewrite app_nil_r, rev_involutive.
    + split; [done|]. by rewrite Hjoin.
Qed.

Lemma feed_rows (rows : list (list string)) : ∀ r,
  st r = START_RECORD → field r = EmptyString → fields r = [] →
  feed r (write_rows rows) =
    {| st := START_RECORD; field := EmptyString; fields := [];
       records := rev rows ++ records r |}.
Proof.
  induction rows as [|row rows IH]; intros r Hst Hfield Hfields.
  - simpl. destruct r; simpl in *; by subst.
  - simpl write_rows. rewrite feed_app, feed_row by done.
    rewrite IH by done. simpl. by rewrite <- app_assoc.
Qed.

(** What the writer wrote, the reader reads back. *)
Lemma read_write_rows (rows : list (list string)) :
  read_rows (write_rows rows) = rows.
Proof.
  unfold read_rows. rewrite feed_rows by done.
  unfold finish. simpl. by rewrite app_nil_r, rev_involutive.
Qed.

End CsvFacts.

(** ** Decimal text of integers *)

Lemma pretty_N_char_digit (d : N) :
  (d < 10)%N →
  is_digit (pretty_N_char d) = true ∧ digit_val (pretty_N_char d) = Z.of_N d.
Proof.
  intros Hd.
  assert (d = 0 ∨ d = 1 ∨ d = 2 ∨ d = 3 ∨ d = 4 ∨ d = 5 ∨ d = 6 ∨ d = 7
          ∨ d = 8 ∨ d = 9)%N as Hcases by lia.
  repeat (destruct Hcases as [->|Hcases]; [by vm_compute|]).
  subst. by vm_compute.
Qed.

Lemma pretty_N_go_parse (x : N) : ∀ s,
  int_of_digits 0 (pretty_N_go x s) = int_of_digits (Z.of_N x) s.
Proof.
  induction (N.lt_wf_0 x) as [x _ IH]. intros s.
  assert (x = 0 ∨ 0 < x)%N as [->|Hx] by lia; [by rewrite pretty_N_go_0|].
  rewrite pretty_N_go_step by done.
  rewrite IH by (by apply N.div_lt). cbn [int_of_digits].
  destruct (pretty_N_char_digit (x `mod` 10)) as [_ ->];
    [by apply N.mod_lt|].
  f_equal. rewrite (N.div_mod x 10) at 3 by done. lia.
Qed.

Lemma pretty_N_go_all_digits (x : N) : ∀ s,
  all_digits s = true → all_digits (pretty_N_go x s) = true.
Proof.
  induction (N.lt_wf_0 x) as [x _ IH]. intros s Hs.
  assert (x = 0 ∨ 0 < x)%N as [->|Hx] by lia; [by rewrite pretty_N_go_0|].
  rewrite pretty_N_go_step by done.
  apply IH; [by apply N.div_lt|]. cbn [all_digits].
  destruct (pretty_N_char_digit (x `mod` 10)) as [-> _];
    [by apply N.mod_lt | done].
Qed.

Lemma pretty_N_go_nonempty (x : N) : ∀ s,
  s ≠ EmptyString → pretty_N_go x s ≠ EmptyString.
Proof.
  induction (N.lt_wf_0 x) as [x _ IH]. intros s Hs.
  assert (x = 0 ∨ 0 < x)%N as [->|Hx] by lia; [by rewrite pretty_N_go_0|].
  rewrite pretty_N_go_step by done.
  apply IH; [by apply N.div_lt | done].
Qed.

(** The text of a non-negative integer is a digit string that reads back
    as the integer. *)
Lemma str_int_digits (n : Z) :
  0 <= n →
  str_int n ≠ EmptyString ∧ all_digits (str_int n) = true ∧
  int_of_digits 0 (str_int n) = n.
Proof.
  intros Hn. destruct n as [|p|p]; [done| |lia].
  unfold str_int, pretty, pretty_Z, pretty, pretty_positive, pretty, pretty_N.
  case_decide; [done|].
  rewrite pretty_N_go_step by lia.
  split; [by apply pretty_N_go_nonempty|]. split.
  - apply pretty_N_go_all_digits. cbn [all_digits].
    destruct (pretty_N_char_digit (N.pos p `mod` 10)) as [-> _];
      [by apply N.mod_lt | done].
  - rewrite <- pretty_N_go_step by lia. rewrite pretty_N_go_parse.
    cbn [int_of_digits]. lia.
Qed.


(** ** Tabular export *)

Lemma fmap_ext_elem {A B} (f g : A → B) (l : list A) :
  (∀ x, x ∈ l → f x = g x) → f <$> l = g <$> l.
Proof.
  induction l as [|x l IH]; intros H; [done|].
  rewrite !fmap_cons. f_equal; [apply H; left | apply IH].
  intros y Hy. apply H. by right.
Qed.

Lemma decode_utf8_sig_BOM (text : string) :
  decode_utf8_sig (BOM +:+ text) = text.
Proof. reflexivity. Qed.

Lemma dget_export_video (video : pydict) (field : string) :
  field ∈ export_fields →
  dget (export_video video) field (PStr "") = dget video field (PStr "").
Proof.
  intros H. unfold export_video. rewrite dget_list_to_map.
  repeat (apply elem_of_cons in H as [->|H]; [reflexivity|]).
  by apply elem_of_nil in H.
Qed.

Lemma dict_row_export_video (w : World) (video : pydict) :
  dict_row w (export_video video) = cells_of w video.
Proof.
  unfold dict_row, cells_of. apply fmap_ext_elem. intros field H.
  by rewrite dget_export_video.
Qed.

Lemma export_to_csv_content (w : World) (fs : gmap string string)
    (videos : list pydict) (filename : option string) :
  videos ≠ [] → writable w (csv_filename w filename) = true →
  export_to_csv w fs videos filename !! csv_filename w filename =
    Some (BOM +:+ Csv.write_rows (export_fields :: (cells_of w <$> videos))).
Proof.
  intros Hne Hw. unfold export_to_csv.
  destruct videos as [|video videos]; [done|].
  rewrite Hw, lookup_insert_eq. cbn [Csv.write_rows]. do 4 f_equal.
  rewrite <- list_fmap_compose. apply fmap_ext_elem.
  intros v _. apply dict_row_export_video.
Qed.










(** C10.  Exporting an empty list leaves the file system as it was: no
    file is created and no header written.  Exporting a non-empty list to
    a writable file produces a file that starts, after the byte order
    mark, with the row naming the fifteen exported columns in order. *)
Theorem export_to_csv_header (w : World) (fs : gmap string string)
    (videos : list pydict) (filename : option string) :
  export_to_csv w fs [] filename = fs ∧
  (videos ≠ [] → writable w (csv_filename w filename) = true →
   ∃ rows,
     export_to_csv w fs videos filename !! csv_filename w filename =
       Some (BOM +:+ "rank,title,owner_name,play_count,danmaku_count,like_count,coin_count,favorite_count,share_count,reply_count,duration_formatted,publish_time,bvid,pub_location,tname"
               +:+ String Csv.CR (String Csv.LF rows)) ∧
     ∀ bytes,
       export_to_csv w fs videos filename !! csv_filename w filename
         = Some bytes →
       head (Csv.read_rows (decode_utf8_sig bytes)) = Some export_fields).
Proof.
  split; [reflexivity|]. intros Hne Hw.
  exists (Csv.write_rows (cells_of w <$> videos)).
  rewrite export_to_csv_content by done. split; [reflexivity|].
  intros bytes Hbytes.
  assert (bytes = BOM +:+ Csv.write_rows
                            (export_fields :: (cells_of w <$> videos)))
    as -> by congruence.
  by rewrite decode_utf8_sig_BOM, CsvFacts.read_write_rows.
Qed.

Lemma export_to_csv_header_witness :
  export_to_csv Examples.offline ∅ [] None = ∅ ∧
  ∃ rows,
    export_to_csv Examples.offline ∅ [Examples.plain] None
      !! "bilibili_hot_videos_20240501_120000.csv" =
      Some (BOM +:+ "rank,title,owner_name,play_count,danmaku_count,like_count,coin_count,favorite_count,share_count,reply_count,duration_formatted,publish_time,bvid,pub_location,tname"
              +:+ String Csv.CR (String Csv.LF rows)).
Proof.
  destruct (export_to_csv_header Examples.offline ∅ [Examples.plain] None)
    as [Hempty Hheader].
  split; [exact Hempty|].
  destruct Hheader as (rows & Hrows & _); [done | reflexivity |].
  exists rows. exact Hrows.
Defined.

(** * Further properties of the program *)

(** ** Listing fetcher: the other ways a run of pages ends *)

(** X1.  When the pages before page [page_number + k] all contributed
    their items and the request for that page raises (a transport error or
    a payload that cannot be read) or is answered with an empty list, the
    fetcher returns exactly the earlier pages' items, in order. *)
Theorem get_popular_videos_stops (w : World)
    (page_size page_number max_pages : Z) (k : nat) :
  (k < Z.to_nat max_pages)%nat →
  Forall (λ p, page_items w page_size p ≠ []) (range_from page_number k) →
  ((∃ e, popular w page_size (page_number + Z.of_nat k) = Raise e) ∨
   (∃ data, popular w page_size (page_number + Z.of_nat k) = Ok data ∧
            env_list data = [])) →
  get_popular_videos w page_size page_number max_pages =
    concat (map (page_items w page_size) (range_from page_number k)).
Proof.
  intros Hk Hall Hstop. unfold get_popular_videos.
  apply fetch_pages_stop; [done | done |].
  unfold page_items. destruct Hstop as [[e ->]|(data & -> & Hlist)]; [done|].
  rewrite Hlist. by destruct (env_code data =? 0).
Qed.

Lemma get_popular_videos_stops_witness :
  get_popular_videos
    (Examples.second_page
       (Ok {| env_code := 0; env_message := "0"; env_list := [] |})) 50 1 3
    = [Examples.item "BV1a"; Examples.item "BV1b"] ∧
  get_popular_videos
    (Examples.second_page (Raise RequestException)) 50 1 3
    = [Examples.item "BV1a"; Examples.item "BV1b"] ∧
  get_popular_videos Examples.offline 50 1 3 = [].
Proof.
  split; [|split].
  - rewrite (get_popular_videos_stops
               (Examples.second_page
                  (Ok {| env_code := 0; env_message := "0";
                         env_list := [] |})) 50 1 3 1).
    + reflexivity.
    + simpl. lia.
    + constructor; [discriminate | constructor].
    + right. eexists. split; reflexivity.
  - rewrite (get_popular_videos_stops
               (Examples.second_page (Raise RequestException)) 50 1 3 1).
    + reflexivity.
    + simpl. lia.
    + constructor; [discriminate | constructor].
    + left. by exists RequestException.
  - apply (get_popular_videos_stops Examples.offline 50 1 3 0).
    + simpl. lia.
    + constructor.
    + left. by exists RequestException.
Defined.

Lemma fetch_pages_more (w : World) (page_size : Z) (n : nat) : ∀ page,
  fetch_pages w page_size page n [] `prefix_of`
    fetch_pages w page_size page (S n) [].
Proof.
  induction n as [|n IH]; intros page; [apply prefix_nil|].
  rewrite (fetch_pages_step w page_size page (S n)).
  rewrite (fetch_pages_step w page_size page n).
  destruct (page_items w page_size page) as [|v vs]; [done|].
  rewrite (fetch_pages_acc w page_size n).
  rewrite (fetch_pages_acc w page_size (S n)).
  apply prefix_app, IH.
Qed.

(** X2.  Asking for more pages only adds items at the end: the listing for
    [max_pages] pages is a prefix of the listing for any larger page count,
    and a page count of 0 or less lists nothing. *)
Theorem get_popular_videos_prefix (w : World)
    (page_size page_number max_pages max_pages' : Z) :
  (max_pages <= 0 → get_popular_videos w page_size page_number max_pages = []) ∧
  (max_pages <= max_pages' →
   get_popular_videos w page_size page_number max_pages `prefix_of`
     get_popular_videos w page_size page_number max_pages').
Proof.
  unfold get_popular_videos. split.
  - intros H. by replace (Z.to_nat max_pages) with 0%nat by lia.
  - intros H.
    assert (Hle : (Z.to_nat max_pages ≤ Z.to_nat max_pages')%nat) by lia.
    induction Hle as [|m Hle IH]; [done|].
    etrans; [apply IH | apply fetch_pages_more].
Qed.

Lemma get_popular_videos_prefix_witness :
  get_popular_videos Examples.two_pages 50 1 0 = [] ∧
  get_popular_videos Examples.two_pages 50 1 1 `prefix_of`
    get_popular_videos Examples.two_pages 50 1 2.
Proof.
  split.
  - apply (get_popular_videos_prefix Examples.two_pages 50 1 0 0). lia.
  - apply (get_popular_videos_prefix Examples.two_pages 50 1 1 2). lia.
Defined.

(** ** The two sub-fetches and their merge *)




(** X5.  In the merged details a counter key is bound as in the scrape
    result and every other key as in the structured result: neither
    sub-fetch overrides the other. *)
Theorem get_video_details_lookup (w : World) (i : Z) (bvid : pyval) (k : string) :
  get_video_details w i bvid !! k =
    if bool_decide (k ∈ counter_fields)
    then _get_video_stats_from_web w i bvid !! k
    else _get_video_stats_from_api w i bvid !! k.
Proof.
  case_bool_decide; [by apply details_counter | by apply details_other].
Qed.

(** ** Enrichment of one item and of the listing *)



Lemma enrich_carries (w : World) (i : Z) (video : pyval) (r : pydict) :
  enrich w i video = Ok r → carries video r.
Proof.
  intros H. apply enrich_inv in H
    as (d & o & t & b & n & m & f & df & pt
        & -> & Ht & Hb & Ho & Hn & Hm & Hf & _ & _ & ->).
  exists d, o. split; [done|]. split; [done|].
  rewrite Ht, Hb, Hn, Hm, Hf.
  repeat split; field_of_record.
Qed.

Lemma enrich_from_carries w videos : ∀ i acc records,
  enrich_from w i videos acc = Ok records →
  ∃ added, records = acc ++ added ∧ Forall2 carries videos added.
Proof.
  induction videos as [|video videos IH]; intros i acc records H;
    cbn [enrich_from] in H.
  - injection H as <-. exists []. by rewrite app_nil_r.
  - apply exc_bind_ok in H as (r & Hr & H).
    apply IH in H as (added & -> & Hall).
    exists (r :: added). rewrite <- app_assoc. split; [done|].
    constructor; [by eapply enrich_carries | done].
Qed.

(** X7.  The records come out in listing order, one per item: the n-th
    record carries the title, identifier, owner fields and optional fields
    of the n-th listed item. *)
Theorem enrich_videos_items (w : World) (videos : list pyval)
    (records : list pydict) :
  enrich_videos w videos = Ok records → Forall2 carries videos records.
Proof.
  intros H. by apply enrich_from_carries in H as (added & -> & Hall).
Qed.

Lemma enrich_videos_items_witness :
  ∃ records, enrich_videos Examples.flaky Examples.three_items = Ok records ∧
    Forall2 carries Examples.three_items records.
Proof.
  destruct (enrich_from_returns Examples.flaky Examples.three_items 1 [])
    as [records Hr].
  - repeat constructor.
  - intros i bvid. unfold _get_video_stats_from_api. simpl view_api.
    destruct (i =? 1); vm_compute; reflexivity.
  - exists records. split; [exact Hr|].
    exact (enrich_videos_items Examples.flaky Examples.three_items records Hr).
Defined.

Lemma enrich_from_app w videos videos' : ∀ i acc,
  enrich_from w i (videos ++ videos') acc =
    enrich_from w i videos acc ≫=
      enrich_from w (i + Z.of_nat (length videos)) videos'.
Proof.
  induction videos as [|video videos IH]; intros i acc.
  - cbn [app length enrich_from]. unfold mbind, exc_bind.
    by rewrite Z.add_0_r.
  - cbn [app length enrich_from]. unfold mbind at 1 3, exc_bind.
    destruct (enrich w i video) as [r|e]; [|done].
    rewrite IH. by replace (i + 1 + Z.of_nat (length videos))
      with (i + Z.of_nat (S (length videos))) by lia.
Qed.

(** X8.  The loop has no handler of its own: when the items before some
    item are enriched and that item raises, the whole enrichment raises
    the same exception and no record is returned, whatever follows in the
    listing. *)
Theorem enrich_videos_aborts (w : World) (before after : list pyval)
    (video : pyval) (e : py_exn) :
  is_ok (enrich_videos w before) = true →
  enrich w (1 + Z.of_nat (length before)) video = Raise e →
  enrich_videos w (before ++ video :: after) = Raise e.
Proof.
  unfold enrich_videos. intros Hbefore Hvideo.
  rewrite enrich_from_app.
  destruct (enrich_from w 1 before []) as [records|]; [|done].
  unfold mbind, exc_bind. cbn [enrich_from].
  by rewrite Hvideo.
Qed.

Lemma enrich_videos_aborts_witness :
  enrich_videos (Examples.api_only [] [("duration", PNone)])
    ([] ++ Examples.item "BV1" :: [Examples.item "BV2"]) = Raise TypeError.
Proof.
  apply (enrich_videos_aborts (Examples.api_only [] [("duration", PNone)])
           [] [Examples.item "BV2"] (Examples.item "BV1") TypeError).
  - reflexivity.
  - vm_compute. reflexivity.
Defined.




(** ** Tabular export: what it touches and what it depends on *)

Lemma prefix_bytes_prefix (n : nat) : ∀ s,
  ∃ rest, s = prefix_bytes n s +:+ rest.
Proof.
  induction n as [|n IH]; intros s.
  - exists s. by destruct s.
  - destruct s as [|c s]; [by exists EmptyString|].
    destruct (IH s) as [rest Hrest]. exists rest.
    cbn [prefix_bytes]. by rewrite CsvFacts.append_cons, <- Hrest.
Qed.

Lemma prefix_bytes_length (n : nat) : ∀ s,
  String.length (prefix_bytes n s) = Nat.min n (String.length s).
Proof.
  induction n as [|n IH]; intros s; [done|].
  destruct s as [|c s]; [done|]. cbn [prefix_bytes String.length].
  by rewrite IH.
Qed.

(** X10.  [export_to_csv] touches one file at most: every other file
    keeps its content; an empty list, or a file that cannot be opened,
    leaves the file system as it was; when the file is opened and a write
    fails, the file is left with the bytes written so far, a prefix of the
    full content, whatever it held before; a written file does not
    depend on what the file system held before; and without a file name,
    or with an empty one, the file is [bilibili_hot_videos_<stamp>.csv]. *)
Theorem export_to_csv_frame (w : World) (fs fs' : gmap string string)
    (videos : list pydict) (filename : option string) :
  (∀ name, name ≠ csv_filename w filename →
     export_to_csv w fs videos filename !! name = fs !! name) ∧
  (videos = [] → export_to_csv w fs videos filename = fs) ∧
  (writable w (csv_filename w filename) = false →
   write_failure w (csv_filename w filename) = None →
     export_to_csv w fs videos filename = fs) ∧
  (∀ n, videos ≠ [] →
     writable w (csv_filename w filename) = false →
     write_failure w (csv_filename w filename) = Some n →
     ∃ written rest,
       export_to_csv w fs videos filename =
         <[csv_filename w filename := written]> fs ∧
       written +:+ rest =
         BOM +:+ Csv.write_rows (export_fields :: (cells_of w <$> videos)) ∧
       String.length written =
         Nat.min n
           (String.length
              (BOM +:+ Csv.write_rows
                         (export_fields :: (cells_of w <$> videos))))) ∧
  (videos ≠ [] → writable w (csv_filename w filename) = true →
     export_to_csv w fs videos filename !! csv_filename w filename =
     export_to_csv w fs' videos filename !! csv_filename w filename) ∧
  csv_filename w None = "bilibili_hot_videos_" +:+ file_stamp w +:+ ".csv" ∧
  csv_filename w (Some "") = csv_filename w None.
Proof.
  split; [|split; [|split; [|split; [|split; [|done]]]]].
  - intros name Hname. unfold export_to_csv.
    destruct videos; [done|].
    destruct (writable w (csv_filename w filename)).
    + by rewrite lookup_insert_ne.
    + destruct (write_failure w (csv_filename w filename)); [|done].
      by rewrite lookup_insert_ne.
  - by intros ->.
  - intros Hw Hf. unfold export_to_csv. rewrite Hw, Hf. by destruct videos.
  - intros n Hne Hw Hf. unfold export_to_csv. rewrite Hw, Hf.
    destruct videos as [|video videos]; [done|].
    assert (Hcontent :
      BOM +:+ Csv.write_row export_fields
          +:+ Csv.write_rows
                (dict_row w <$> (export_video <$> video :: videos)) =
      BOM +:+ Csv.write_rows
                (export_fields :: (cells_of w <$> video :: videos))).
    { assert (Hrows : dict_row w <$> (export_video <$> video :: videos) =
                       cells_of w <$> video :: videos).
      { rewrite <- list_fmap_compose. apply fmap_ext_elem.
        intros v _. apply dict_row_export_video. }
      by rewrite Hrows. }
    rewrite Hcontent.
    destruct (prefix_bytes_prefix n
                (BOM +:+ Csv.write_rows
                           (export_fields :: (cells_of w <$> video :: videos))))
      as [rest Hrest].
    eexists _, rest. split; [reflexivity|]. split; [by rewrite <- Hrest|].
    apply prefix_bytes_length.
  - intros Hne Hw. by rewrite !export_to_csv_content.
Qed.

Lemma export_to_csv_frame_witness :
  export_to_csv Examples.offline {[ "notes.txt" := "keep" ]}
    [Examples.plain] (Some "out.csv") !! "notes.txt" = Some "keep" ∧
  export_to_csv (Examples.disk_full None) {[ "out.csv" := "old" ]}
    [Examples.plain] (Some "out.csv") = {[ "out.csv" := "old" ]} ∧
  export_to_csv (Examples.disk_full (Some 7%nat)) {[ "out.csv" := "old" ]}
    [Examples.plain] (Some "out.csv") !! "out.csv"
    = Some (BOM +:+ "rank")%string.
Proof.
  split; [|split].
  - destruct (export_to_csv_frame Examples.offline
                {[ "notes.txt" := "keep" ]} ∅
                [Examples.plain] (Some "out.csv")) as [Hframe _].
    rewrite Hframe; [reflexivity | discriminate].
  - destruct (export_to_csv_frame (Examples.disk_full None)
                {[ "out.csv" := "old" ]} ∅
                [Examples.plain] (Some "out.csv")) as (_ & _ & Hopen & _).
    apply Hopen; reflexivity.
  - destruct (export_to_csv_frame (Examples.disk_full (Some 7%nat))
                {[ "out.csv" := "old" ]} ∅
                [Examples.plain] (Some "out.csv"))
      as (_ & _ & _ & Hwrite & _).
    destruct (Hwrite 7%nat) as (written & rest & -> & Hsplit & Hlen);
      [done | reflexivity | reflexivity |].
    rewrite lookup_insert_eq. f_equal.
    assert (Hfull : ∃ tail,
              written +:+ rest = (BOM +:+ "rank")%string +:+ tail).
    { rewrite Hsplit. eexists. vm_compute. reflexivity. }
    destruct Hfull as [tail Htail]. clear Hsplit.
    vm_compute in Hlen.
    do 7 (destruct written as [|? written]; [discriminate Hlen|]).
    destruct written; [|discriminate Hlen].
    vm_compute in Htail. by injection Htail as -> -> -> -> -> -> ->.
Defined.

Lemma export_video_same (video video' : pydict) :
  same_export video video' → export_video video = export_video video'.
Proof.
  intros H. unfold export_video. f_equal. apply fmap_ext_elem.
  intros field Hfield. unfold dget. by rewrite (H field Hfield).
Qed.

(** X11.  The exported file is a function of the fifteen export fields
    alone: two lists of records that agree, record by record, on those
    fields are exported to the same file system, whatever their other
    fields ([desc], [pic], [owner_mid], ...) hold. *)
Theorem export_to_csv_same_export (w : World) (fs : gmap string string)
    (videos videos' : list pydict) (filename : option string) :
  Forall2 same_export videos videos' →
  export_to_csv w fs videos filename = export_to_csv w fs videos' filename.
Proof.
  intros H. unfold export_to_csv.
  assert (Hdata : export_video <$> videos = export_video <$> videos').
  { induction H as [|v v' vs vs' Hv _ IH]; [done|].
    rewrite !fmap_cons. f_equal; [by apply export_video_same | done]. }
  destruct H as [|v v' vs vs' Hv Hvs]; [done|].
  by rewrite Hdata.
Qed.

Lemma export_to_csv_same_export_witness :
  export_to_csv Examples.offline ∅ [Examples.plain] (Some "out.csv") =
  export_to_csv Examples.offline ∅
    [<["desc" := PStr "text"]> Examples.plain] (Some "out.csv").
Proof.
  apply (export_to_csv_same_export Examples.offline ∅ [Examples.plain]
           [<["desc" := PStr "text"]> Examples.plain] (Some "out.csv")).
  constructor; [|constructor].
  intros field Hfield. symmetry. apply lookup_insert_ne.
  intros <-. revert Hfield. unfold export_fields.
  rewrite !elem_of_cons, elem_of_nil. intros H.
  repeat (destruct H as [H|H]; [discriminate H|]). done.
Defined.

(** ** Summary block: bounds *)

Lemma sum_bounds (lo hi : Z) (l : list Z) :
  Forall (λ y, lo <= y <= hi) l →
  lo * Z.of_nat (length l) <= sum l <= hi * Z.of_nat (length l).
Proof.
  induction 1 as [|y l Hy _ IH]; [simpl; lia|].
  unfold sum in *. cbn [foldr length]. lia.
Qed.

Lemma sum_nonneg (l : list Z) : Forall (λ y, 0 <= y) l → 0 <= sum l.
Proof. induction 1; unfold sum in *; cbn [foldr]; lia. Qed.

Lemma sum_elem_le (l : list Z) (m : Z) :
  Forall (λ y, 0 <= y) l → m ∈ l → m <= sum l.
Proof.
  induction 1 as [|y l Hy Hl IH]; intros Hm; [by apply elem_of_nil in Hm|].
  pose proof (sum_nonneg l Hl). unfold sum in *. cbn [foldr].
  apply elem_of_cons in Hm as [->|Hm]; [lia|].
  specialize (IH Hm). lia.
Qed.

(** X12.  With at least one numeric play count, the average reported in
    the summary block lies between the minimum and the maximum, the values
    are not negative, and the total is at least the maximum. *)
Theorem summary_bounds (w : World) (videos : list pydict) (x : Z)
    (l : list Z) :
  valid_plays w videos = Ok (x :: l) →
  0 <= min_of x l ∧
  min_of x l <= sum (x :: l) / Z.of_nat (length (x :: l)) ∧
  sum (x :: l) / Z.of_nat (length (x :: l)) <= max_of x l ∧
  max_of x l <= sum (x :: l).
Proof.
  intros H.
  pose proof (valid_plays_nonneg w videos _ H) as Hnonneg.
  assert (Hbounds : Forall (λ y, min_of x l <= y <= max_of x l) (x :: l)).
  { apply Forall_forall. intros y Hy.
    split; [by apply min_of_lower | by apply max_of_upper]. }
  apply sum_bounds in Hbounds.
  assert (Hlen : 0 < Z.of_nat (length (x :: l))) by (simpl; lia).
  split; [|split; [|split]].
  - pose proof (min_of_elem l x) as Hmin.
    by apply (proj1 (Forall_forall _ _) Hnonneg) in Hmin.
  - apply Z.div_le_lower_bound; lia.
  - apply Z.div_le_upper_bound; lia.
  - apply sum_elem_le; [done | apply max_of_elem].
Qed.

Lemma summary_bounds_witness :
  0 <= min_of 1500 [2500; 0] ∧
  min_of 1500 [2500; 0] <= sum [1500; 2500; 0] / 3 ∧
  sum [1500; 2500; 0] / 3 <= max_of 1500 [2500; 0] ∧
  max_of 1500 [2500; 0] <= sum [1500; 2500; 0].
Proof.
  apply (summary_bounds Examples.offline
           [Examples.play (PInt 1500); Examples.play (PStr "2500"); ∅]
           1500 [2500; 0]).
  vm_compute. reflexivity.
Defined.



(** ** Thousands separators *)

Lemma remove_commas_list (l : list ascii) :
  remove_commas (String.string_of_list_ascii l) =
    String.string_of_list_ascii (filter (λ c, c ≠ ","%char) l).
Proof.
  induction l as [|c l IH]; [done|]. cbn [String.string_of_list_ascii remove_commas].
  destruct (Ascii.eqb_spec c ",") as [->|Hc].
  - by rewrite filter_cons_False by (by intros ?).
  - rewrite filter_cons_True by done. cbn [String.string_of_list_ascii].
    by rewrite IH.
Qed.

Lemma comma_groups_step (a b c d : ascii) (rest : list ascii) :
  comma_groups (a :: b :: c :: d :: rest) =
    [a; b; c] ++ [","%char] ++ comma_groups (d :: rest).
Proof. reflexivity. Qed.

Lemma filter_comma_groups (n : nat) : ∀ l : list ascii,
  (length l ≤ n)%nat →
  filter (λ c, c ≠ ","%char) (comma_groups l) = filter (λ c, c ≠ ","%char) l.
Proof.
  induction n as [|n IH]; intros l Hl.
  - by destruct l; [|simpl in Hl; lia].
  - destruct l as [|a [|b [|c [|d rest]]]]; try done.
    rewrite comma_groups_step, !filter_app.
    rewrite IH by (simpl in *; lia).
    change (a :: b :: c :: d :: rest) with ([a; b; c] ++ d :: rest).
    rewrite filter_app. by f_equal.
Qed.

Lemma filter_rev {A} (P : A → Prop) `{∀ x, Decision (P x)} (l : list A) :
  filter P (rev l) = rev (filter P l).
Proof.
  induction l as [|x l IH]; [done|]. cbn [rev].
  rewrite filter_app, IH, filter_cons.
  destruct (decide (P x)).
  - by rewrite filter_cons_True.
  - rewrite filter_cons_False by done. cbn [filter]. by rewrite app_nil_r.
Qed.

Lemma filter_digits (s : string) :
  all_digits s = true →
  filter (λ c, c ≠ ","%char) (String.list_ascii_of_string s) =
    String.list_ascii_of_string s.
Proof.
  induction s as [|c s IH]; [done|]. cbn [all_digits String.list_ascii_of_string].
  intros H. apply andb_prop in H as [Hc Hs].
  rewrite filter_cons_True; [by rewrite IH|].
  intros ->. by vm_compute in Hc.
Qed.

Lemma remove_commas_thousands (n : Z) :
  0 <= n →
  remove_commas
    (String.string_of_list_ascii
       (rev (comma_groups (rev (String.list_ascii_of_string (str_int n))))))
  = str_int n.
Proof.
  intros Hn. destruct (str_int_digits n Hn) as (_ & Hall & _).
  rewrite remove_commas_list, filter_rev.
  rewrite (filter_comma_groups _ _ (le_n _)).
  rewrite filter_rev, rev_involutive, filter_digits by done.
  apply String.string_of_list_ascii_of_string.
Qed.

(** X14.  Removing the commas from a number formatted with thousands
    separators gives the plain decimal text of the number, which for a
    non-negative number reads back as the number; below 1000 no separator
    is written. *)
Theorem format_number_remove_commas (n : Z) :
  remove_commas (format_number n) = str_int n ∧
  (0 <= n → int_of_digits 0 (remove_commas (format_number n)) = n) ∧
  (0 <= n < 1000 → format_number n = str_int n).
Proof.
  assert (Hrc : remove_commas (format_number n) = str_int n).
  { unfold format_number, fmt_thousands.
    destruct (Z.ltb_spec n 0) as [Hneg|Hpos].
    - rewrite CsvFacts.append_cons, CsvFacts.append_nil_l.
      cbn [remove_commas]. change (Ascii.eqb "-" ",") with false. cbv iota.
      rewrite remove_commas_thousands by lia.
      by destruct n as [|p|p]; [lia | lia |].
    - rewrite Z.abs_eq by done. by apply remove_commas_thousands. }
  split; [done|]. split.
  - intros Hn. rewrite Hrc. by apply str_int_digits.
  - intros Hn.
    assert (Hall : forallb (λ k, String.eqb (format_number (Z.of_nat k))
                                   (str_int (Z.of_nat k))) (seq 0 1000) = true)
      by (vm_compute; reflexivity).
    rewrite forallb_forall in Hall. specialize (Hall (Z.to_nat n)).
    rewrite Z2Nat.id in Hall by lia.
    apply String.eqb_eq, Hall, in_seq. lia.
Qed.

Lemma format_number_remove_commas_witness :
  format_number 1234567 = "1,234,567" ∧
  int_of_digits 0 (remove_commas (format_number 1234567)) = 1234567 ∧
  format_number 999 = str_int 999.
Proof.
  destruct (format_number_remove_commas 1234567) as (_ & Hparse & _).
  destruct (format_number_remove_commas 999) as (_ & _ & Hsmall).
  split; [vm_compute; reflexivity|].
  split; [apply Hparse; lia | apply Hsmall; lia].
Defined.

(** ** Interactive parameters *)

Lemma ask_ok (c : Console) (dflt : Z) (valid : Z → bool) (inputs : list string)
    (n : Z) (rest : list string) :
  ask c dflt valid inputs = Ok (n, rest) ↔
  ∃ skipped line,
    inputs = skipped ++ line :: rest ∧
    Forall (λ l, ∀ m, answer_of c dflt l = Some m → valid m = false) skipped ∧
    answer_of c dflt line = Some n ∧ valid n = true.
Proof.
  split.
  - revert n rest. induction inputs as [|l inputs IH]; intros n rest H;
      [done|]. cbn [ask] in H.
    destruct (answer_of c dflt l) as [m|] eqn:Hl.
    + destruct (valid m) eqn:Hm.
      * injection H as <- <-. exists [], l. by repeat split.
      * apply IH in H as (skipped & line & -> & Hskip & Hline & Hn).
        exists (l :: skipped), line. repeat split; [|done..].
        constructor; [|done]. intros m' Hm'. congruence.
    + apply IH in H as (skipped & line & -> & Hskip & Hline & Hn).
      exists (l :: skipped), line. repeat split; [|done..].
      constructor; [|done]. intros m' Hm'. congruence.
  - intros (skipped & line & -> & Hskip & Hline & Hn).
    induction Hskip as [|l skipped Hl _ IH]; cbn [app ask].
    + by rewrite Hline, Hn.
    + destruct (answer_of c dflt l) as [m|]; [|done].
      by rewrite (Hl m eq_refl).
Qed.

Lemma ask_valid (c : Console) (dflt : Z) (valid : Z → bool)
    (inputs : list string) (n : Z) (rest : list string) :
  ask c dflt valid inputs = Ok (n, rest) →
  valid n = true ∧ (length rest < length inputs)%nat.
Proof.
  intros H. apply ask_ok in H as (skipped & line & -> & _ & _ & Hn).
  split; [done|]. rewrite length_app. simpl. lia.
Qed.

(** X15.  The parameters [get_user_input] returns are always in range:
    the page size between 1 and 100, the start page and the page count at
    least 1; each of them used up at least one typed line. *)
Theorem get_user_input_range (c : Console) (inputs rest : list string)
    (page_size start_page max_pages : Z) :
  get_user_input c inputs = Ok (page_size, start_page, max_pages, rest) →
  1 <= page_size <= 100 ∧ 1 <= start_page ∧ 1 <= max_pages ∧
  (length rest + 3 ≤ length inputs)%nat.
Proof.
  unfold get_user_input. intros H.
  apply exc_bind_ok in H as ([ps in1] & H1 & H).
  apply exc_bind_ok in H as ([sp in2] & H2 & H).
  apply exc_bind_ok in H as ([mp in3] & H3 & H).
  injection H as -> -> -> ->.
  apply ask_valid in H1 as [V1 L1], H2 as [V2 L2], H3 as [V3 L3].
  unfold valid_page_size, valid_from_one in *.
  apply andb_prop in V1 as [V1 V1']. lia.
Qed.

Lemma get_user_input_range_witness :
  1 <= 20 <= 100 ∧ 1 <= 1 ∧ 1 <= 3 ∧ (length ["x"] + 3 ≤ 6)%nat.
Proof.
  apply (get_user_input_range plain_console
           ["0"; "abc"; "20"; ""; "3"; "x"] ["x"] 20 1 3).
  vm_compute. reflexivity.
Defined.

Lemma ask_blank (c : Console) (dflt : Z) (valid : Z → bool) (line : string)
    (rest : list string) :
  str_strip c line = EmptyString → valid dflt = true →
  ask c dflt valid (line :: rest) = Ok (dflt, rest).
Proof. intros Hline Hvalid. cbn [ask]. unfold answer_of. by rewrite Hline, Hvalid. Qed.

(** X16.  Each prompt of [get_user_input] returns the first typed line
    that is blank (standing for the default) or spells a number in range,
    after skipping every earlier line; with no such line left the input
    runs out and the prompt raises.  Three blank lines give 50, 1 and 1. *)
Theorem ask_first_acceptable (c : Console) (dflt : Z) (valid : Z → bool)
    (inputs : list string) :
  (∀ n rest,
     ask c dflt valid inputs = Ok (n, rest) ↔
     ∃ skipped line,
       inputs = skipped ++ line :: rest ∧
       Forall (λ l, ∀ m, answer_of c dflt l = Some m → valid m = false)
         skipped ∧
       answer_of c dflt line = Some n ∧ valid n = true) ∧
  (Forall (λ l, ∀ m, answer_of c dflt l = Some m → valid m = false) inputs →
   ask c dflt valid inputs = Raise OtherException) ∧
  (∀ l1 l2 l3 rest,
     str_strip c l1 = EmptyString → str_strip c l2 = EmptyString →
     str_strip c l3 = EmptyString →
     get_user_input c (l1 :: l2 :: l3 :: rest) = Ok (50, 1, 1, rest)).
Proof.
  split; [intros n rest; apply ask_ok|]. split.
  - induction 1 as [|l inputs Hl _ IH]; [done|]. cbn [ask].
    destruct (answer_of c dflt l) as [m|]; [|done].
    by rewrite (Hl m eq_refl).
  - intros l1 l2 l3 rest H1 H2 H3. unfold get_user_input.
    rewrite (ask_blank c 50) by done. unfold mbind at 1, exc_bind.
    rewrite (ask_blank c 1) by done. unfold mbind at 1, exc_bind.
    by rewrite (ask_blank c 1) by done.
Qed.

Lemma ask_first_acceptable_witness :
  ask plain_console 50 valid_page_size ["0"; "abc"; "20"; "7"]
    = Ok (20, ["7"]) ∧
  ask plain_console 50 valid_page_size ["0"; "abc"; "101"]
    = Raise OtherException ∧
  get_user_input plain_console [""; ""; ""; "2"] = Ok (50, 1, 1, ["2"]).
Proof.
  destruct (ask_first_acceptable plain_console 50 valid_page_size
              ["0"; "abc"; "20"; "7"]) as (Hfirst & _ & _).
  destruct (ask_first_acceptable plain_console 50 valid_page_size
              ["0"; "abc"; "101"]) as (_ & Hnone & Hblank).
  split; [|split].
  - apply Hfirst. exists ["0"; "abc"], "20".
    split; [reflexivity|]. split; [|split; vm_compute; reflexivity].
    repeat constructor; intros m; vm_compute; intros [= <-]; reflexivity.
  - apply Hnone.
    repeat constructor; intros m; vm_compute; try discriminate;
      intros [= <-]; reflexivity.
  - apply Hblank; reflexivity.
Defined.

(** ** Category distribution *)

Lemma bump_counts (k : pykey) (stats : list (pykey * Z)) :
  sum (bump k stats).*2 = sum stats.*2 + 1.
Proof.
  induction stats as [|[k' n] stats IH]; [done|]. cbn [bump].
  destruct (decide (k' = k)); unfold sum in *; cbn [fmap list_fmap foldr snd];
    [lia|].
  fold (fmap (M:=list) (@snd pykey Z)). lia.
Qed.

Lemma bump_keys (k : pykey) (stats : list (pykey * Z)) :
  (bump k stats).*1 = if decide (k ∈ stats.*1) then stats.*1 else stats.*1 ++ [k].
Proof.
  induction stats as [|[k' n] stats IH]; [done|]. cbn [bump].
  destruct (decide (k' = k)) as [->|Hne].
  - rewrite decide_True by (rewrite fmap_cons; left). done.
  - rewrite !fmap_cons, IH. cbn [fst].
    destruct (decide (k ∈ stats.*1)) as [Hin|Hnin].
    + by rewrite decide_True by (by right).
    + rewrite decide_False; [done|].
      intros [->|?]%elem_of_cons; done.
Qed.

Lemma bump_positive (k : pykey) (stats : list (pykey * Z)) :
  Forall (λ p, 1 <= p.2) stats → Forall (λ p, 1 <= p.2) (bump k stats).
Proof.
  induction 1 as [|[k' n] stats Hn Hstats IH]; [by repeat constructor|].
  cbn [bump]. destruct (decide (k' = k)); constructor; try done.
  simpl in *. lia.
Qed.

Lemma category_stats_from_spec (videos : list pydict) : ∀ stats result,
  category_stats_from videos stats = Ok result →
  sum result.*2 = sum stats.*2 + Z.of_nat (length videos) ∧
  (Forall (λ p, 1 <= p.2) stats → Forall (λ p, 1 <= p.2) result) ∧
  (NoDup stats.*1 → NoDup result.*1).
Proof.
  induction videos as [|video videos IH]; intros stats result H;
    cbn [category_stats_from] in H.
  - injection H as <-. cbn [length]. split; [lia | done].
  - apply exc_bind_ok in H as (k & _ & H).
    apply IH in H as (Hsum & Hpos & Hdup).
    rewrite bump_counts in Hsum. cbn [length].
    split; [lia|]. split.
    + intros Hs. by apply Hpos, bump_positive.
    + intros Hs. apply Hdup. rewrite bump_keys.
      destruct (decide (k ∈ stats.*1)); [done|].
      apply NoDup_app. split; [done|]. split; [|apply NoDup_singleton].
      intros x Hx ->%list_elem_of_singleton. done.
Qed.

(** X17.  When the category loop of the report completes, every category
    appears once, with a count of at least 1, and the counts add up to the
    number of records; it completes exactly when no record has a list or a
    dictionary as category, and raises [TypeError] otherwise. *)
Theorem category_stats_total (videos : list pydict) :
  (∀ stats, category_stats videos = Ok stats →
     sum stats.*2 = Z.of_nat (length videos) ∧
     Forall (λ p, 1 <= p.2) stats ∧ NoDup stats.*1) ∧
  (is_ok (category_stats videos) = true ↔
   Forall (λ video,
      is_ok (key_of (dget video "tname" (PStr default_category))) = true)
     videos) ∧
  (∀ e, category_stats videos = Raise e → e = TypeError).
Proof.
  unfold category_stats. split; [|split].
  - intros stats H. apply category_stats_from_spec in H as (Hsum & Hpos & Hdup).
    split; [by rewrite Hsum|]. split; [by apply Hpos | apply Hdup, NoDup_nil_2].
  - generalize (@nil (pykey * Z)).
    induction videos as [|video videos IH]; intros stats;
      cbn [category_stats_from]; [by split|].
    rewrite Forall_cons. unfold mbind, exc_bind.
    destruct (key_of _) as [k|e]; [|by split; [|intros [? _]]].
    rewrite IH. by split; [|intros [_ ?]].
  - generalize (@nil (pykey * Z)).
    induction videos as [|video videos IH]; intros stats e;
      cbn [category_stats_from]; [done|].
    unfold mbind, exc_bind.
    destruct (key_of _) as [k|e'] eqn:Hk; [by apply IH|].
    intros [= <-]. unfold key_of in Hk.
    destruct (dget video "tname" (PStr default_category)); congruence.
Qed.

Lemma category_stats_total_witness :
  category_stats [tagged (PStr "音乐"); tagged (PStr "游戏"); ∅;
                  tagged (PStr "音乐")]
    = Ok [(KStr "音乐", 2); (KStr "游戏", 1); (KStr default_category, 1)] ∧
  sum [2; 1; 1] = 4.
Proof.
  destruct (category_stats_total
              [tagged (PStr "音乐"); tagged (PStr "游戏"); ∅;
               tagged (PStr "音乐")]) as (Hsum & _ & _).
  split; [vm_compute; reflexivity|].
  destruct (Hsum [(KStr "音乐", 2); (KStr "游戏", 1);
                  (KStr default_category, 1)]) as (H & _ & _);
    [vm_compute; reflexivity | exact H].
Defined.

Lemma insert_desc_perm (x : pykey * Z) (l : list (pykey * Z)) :
  insert_desc x l ≡ₚ x :: l.
Proof.
  induction l as [|y l IH]; [done|]. cbn [insert_desc].
  destruct (x.2 <? y.2); [|done].
  rewrite IH. apply Permutation_swap.
Qed.

Lemma insert_desc_sorted (x : pykey * Z) (l : list (pykey * Z)) :
  Sorted count_desc l → Sorted count_desc (insert_desc x l).
Proof.
  induction 1 as [|y l Hl IH Hy]; [by repeat constructor|].
  cbn [insert_desc]. destruct (Z.ltb_spec x.2 y.2) as [Hlt|Hge].
  - constructor; [done|].
    destruct l as [|z l]; cbn [insert_desc].
    + constructor. unfold count_desc. lia.
    + destruct (x.2 <? z.2); constructor; [by inversion Hy|unfold count_desc; lia].
  - constructor; [by constructor|]. by constructor.
Qed.

Lemma insert_desc_filter (c : Z) (x : pykey * Z) (l : list (pykey * Z)) :
  filter (λ p, p.2 = c) (insert_desc x l) = filter (λ p, p.2 = c) (x :: l).
Proof.
  induction l as [|y l IH]; [done|]. cbn [insert_desc].
  destruct (Z.ltb_spec x.2 y.2) as [Hlt|Hge]; [|done].
  rewrite (filter_cons _ y), IH, !(filter_cons _ x), (filter_cons _ y).
  destruct (decide (x.2 = c)), (decide (y.2 = c)); try done. lia.
Qed.

Lemma sorted_desc_perm (l : list (pykey * Z)) : sorted_desc l ≡ₚ l.
Proof.
  unfold sorted_desc. induction l as [|x l IH]; [done|].
  cbn [foldr]. rewrite insert_desc_perm. by constructor.
Qed.

Lemma sorted_desc_sorted (l : list (pykey * Z)) :
  Sorted count_desc (sorted_desc l).
Proof.
  unfold sorted_desc. induction l as [|x l IH]; [constructor|].
  cbn [foldr]. by apply insert_desc_sorted.
Qed.

Lemma sorted_desc_filter (c : Z) (l : list (pykey * Z)) :
  filter (λ p, p.2 = c) (sorted_desc l) = filter (λ p, p.2 = c) l.
Proof.
  unfold sorted_desc. induction l as [|x l IH]; [done|]. cbn [foldr].
  by rewrite insert_desc_filter, !filter_cons, IH.
Qed.

Lemma sum_counts_perm (l l' : list (pykey * Z)) :
  l ≡ₚ l' → sum l.*2 = sum l'.*2.
Proof.
  induction 1 as [|x l l' _ IH|x y l|l l' l'' _ IH1 _ IH2];
    unfold sum in *; rewrite ?fmap_cons; cbn [foldr]; try done; lia.
Qed.

(** X18.  The categories are listed by non-increasing count, categories
    of equal count in the order in which they were first met; the listing
    is a rearrangement of the counted categories, so its counts still add
    up to the number of records. *)
Theorem category_lines_sorted (videos : list pydict) (lines : list (pykey * Z)) :
  category_lines videos = Ok lines →
  ∃ stats, category_stats videos = Ok stats ∧
    lines ≡ₚ stats ∧ Sorted count_desc lines ∧
    (∀ c, filter (λ p, p.2 = c) lines = filter (λ p, p.2 = c) stats) ∧
    sum lines.*2 = Z.of_nat (length videos).
Proof.
  unfold category_lines. intros H.
  apply exc_bind_ok in H as (stats & Hstats & [= <-]).
  exists stats. split; [done|].
  split; [apply sorted_desc_perm|].
  split; [apply sorted_desc_sorted|].
  split; [intros c; apply sorted_desc_filter|].
  rewrite (sum_counts_perm _ _ (sorted_desc_perm stats)).
  apply category_stats_from_spec in Hstats as (Hsum & _ & _).
  by rewrite Hsum.
Qed.

Lemma category_lines_sorted_witness :
  category_lines [tagged (PStr "游戏"); tagged (PStr "音乐"); ∅;
                  tagged (PStr "音乐")]
    = Ok [(KStr "音乐", 2); (KStr "游戏", 1); (KStr default_category, 1)] ∧
  Sorted count_desc [(KStr "音乐", 2); (KStr "游戏", 1); (KStr default_category, 1)].
Proof.
  destruct (category_lines_sorted
              [tagged (PStr "游戏"); tagged (PStr "音乐"); ∅;
               tagged (PStr "音乐")]
              [(KStr "音乐", 2); (KStr "游戏", 1); (KStr default_category, 1)])
    as (stats & _ & _ & Hsorted & _); [vm_compute; reflexivity|].
  split; [vm_compute; reflexivity | exact Hsorted].
Defined.

(** ** The formatted duration determines the duration *)

Lemma format_duration_cases (s : Z) :
  0 <= s →
  (s = 0 ∧ format_duration s = NA) ∨
  (0 < s < 3600 ∧
   format_duration s =
     str_int (s / 60) +:+ String ":" (two_digits (s mod 60))) ∨
  (3600 <= s ∧
   format_duration s =
     str_int (s / 3600) +:+
       String ":" (two_digits (s / 60 mod 60) +:+
                   String ":" (two_digits (s mod 60)))).
Proof.
  intros Hs.
  assert (s = 0 ∨ 0 < s < 3600 ∨ 3600 <= s) as [->|[Hshort|Hlong]] by lia.
  - by left.
  - right; left. split; [done|]. unfold format_duration.
    destruct (Z.eqb_spec s 0) as [->|_]; [lia|].
    assert (Hm : 0 <= s / 60 < 60)
      by (split; [apply Z.div_pos; lia | apply Z.div_lt_upper_bound; lia]).
    rewrite (Z.div_small (s / 60) 60), (Z.mod_small (s / 60) 60) by lia.
    change (0 <? 0) with false. cbv iota.
    by rewrite fmt_02d_two_digits
      by (pose proof (Z.mod_pos_bound s 60); lia).
  - right; right. split; [done|]. unfold format_duration.
    destruct (Z.eqb_spec s 0) as [->|_]; [lia|].
    rewrite Z.div_div by lia. change (60 * 60) with 3600.
    assert (Hh : 0 < s / 3600) by (apply Z.div_str_pos; lia).
    destruct (Z.ltb_spec 0 (s / 3600)) as [_|]; [|lia].
    by rewrite !fmt_02d_two_digits
      by (first [ pose proof (Z.mod_pos_bound s 60); lia
                | pose proof (Z.mod_pos_bound (s / 60) 60); lia ]).
Qed.

(** Two digit strings followed by a colon and some text are equal only
    when the digit strings and the texts are. *)
Lemma digits_colon_inj (a : string) : ∀ a' b b',
  all_digits a = true → all_digits a' = true →
  a +:+ String ":" b = a' +:+ String ":" b' → a = a' ∧ b = b'.
Proof.
  induction a as [|c a IH]; intros [|c' a'] b b' Ha Ha' H;
    rewrite ?CsvFacts.append_cons, ?CsvFacts.append_nil_l in H.
  - by injection H as ->.
  - injection H as <- _. cbn [all_digits] in Ha'.
    by apply andb_prop in Ha' as [? _].
  - injection H as -> _. cbn [all_digits] in Ha.
    by apply andb_prop in Ha as [? _].
  - injection H as -> H. cbn [all_digits] in Ha, Ha'.
    apply andb_prop in Ha as [_ Ha], Ha' as [_ Ha'].
    by destruct (IH a' b b' Ha Ha' H) as [-> ->].
Qed.

Lemma digit_char_inj (d d' : Z) :
  0 <= d < 10 → 0 <= d' < 10 → digit_char d = digit_char d' → d = d'.
Proof.
  unfold digit_char. intros Hd Hd' H.
  apply (f_equal nat_of_ascii) in H.
  rewrite !nat_ascii_embedding in H by lia. lia.
Qed.

Lemma two_digits_inj (x y : Z) (t t' : string) :
  0 <= x < 100 → 0 <= y < 100 →
  two_digits x +:+ t = two_digits y +:+ t' → x = y ∧ t = t'.
Proof.
  unfold two_digits. intros Hx Hy H.
  rewrite !CsvFacts.append_cons, !CsvFacts.append_nil_l in H.
  injection H as H1 H2 ->. split; [|done].
  apply digit_char_inj in H1;
    [|split; [apply Z.div_pos; lia | apply Z.div_lt_upper_bound; lia]..].
  apply digit_char_inj in H2; [|apply Z.mod_pos_bound; lia..].
  rewrite (Z.div_mod x 10), (Z.div_mod y 10) by lia. lia.
Qed.

Lemma NA_not_digits (a t : string) :
  a ≠ EmptyString → all_digits a = true → NA ≠ a +:+ t.
Proof.
  destruct a as [|c a]; [done|]. intros _ Ha H.
  rewrite CsvFacts.append_cons in H. injection H as <- _.
  by vm_compute in Ha.
Qed.

Lemma string_tail_eq (c c' : ascii) (t t' : string) :
  String c t = String c' t' → t = t'.
Proof. by intros [= _ ->]. Qed.

(** X19.  Two non-negative durations that are formatted alike are
    equal: the text shown for a duration determines it. *)
Theorem format_duration_inj (s s' : Z) :
  0 <= s → 0 <= s' → format_duration s = format_duration s' → s = s'.
Proof.
  intros Hs Hs' H.
  assert (Hmod : ∀ z, 0 <= z mod 60 < 100)
    by (intros z; pose proof (Z.mod_pos_bound z 60); lia).
  assert (Hdig : ∀ z, 0 <= z → str_int (z / 60) ≠ EmptyString ∧
                         all_digits (str_int (z / 60)) = true ∧
                         str_int (z / 3600) ≠ EmptyString ∧
                         all_digits (str_int (z / 3600)) = true).
  { intros z Hz.
    destruct (str_int_digits (z / 60)) as (? & ? & _);
      [apply Z.div_pos; lia|].
    destruct (str_int_digits (z / 3600)) as (? & ? & _);
      [apply Z.div_pos; lia | done]. }
  destruct (Hdig s Hs) as (Hn1 & Hd1 & Hn2 & Hd2).
  destruct (Hdig s' Hs') as (Hn1' & Hd1' & Hn2' & Hd2').
  destruct (format_duration_cases s Hs)
    as [[-> E]|[[Hr E]|[Hr E]]];
    destruct (format_duration_cases s' Hs')
      as [[-> E']|[[Hr' E']|[Hr' E']]];
    rewrite ?E, ?E' in H; clear E E'.
  - done.
  - by apply NA_not_digits in H.
  - by apply NA_not_digits in H.
  - symmetry in H. by apply NA_not_digits in H.
  - apply digits_colon_inj in H as [Hmin Hsec]; [|done..].
    apply (inj pretty) in Hmin.
    rewrite <- (CsvFacts.append_empty_r (two_digits (s mod 60))) in Hsec.
    rewrite <- (CsvFacts.append_empty_r (two_digits (s' mod 60))) in Hsec.
    apply two_digits_inj in Hsec as [Hsec _]; [|done..].
    rewrite (Z.div_mod s 60), (Z.div_mod s' 60) by lia. lia.
  - apply digits_colon_inj in H as [_ Hsec]; [|done..].
    rewrite <- (CsvFacts.append_empty_r (two_digits (s mod 60))) in Hsec.
    by apply two_digits_inj in Hsec as [_ ?].
  - symmetry in H. by apply NA_not_digits in H.
  - apply digits_colon_inj in H as [_ Hsec]; [|done..].
    rewrite <- (CsvFacts.append_empty_r (two_digits (s' mod 60))) in Hsec.
    by apply two_digits_inj in Hsec as [_ ?].
  - apply digits_colon_inj in H as [Hh Hrest]; [|done..].
    apply (inj pretty) in Hh.
    apply two_digits_inj in Hrest as [Hmin Hsec]; [|done..].
    apply string_tail_eq in Hsec.
    rewrite <- (CsvFacts.append_empty_r (two_digits (s mod 60))) in Hsec.
    rewrite <- (CsvFacts.append_empty_r (two_digits (s' mod 60))) in Hsec.
    apply two_digits_inj in Hsec as [Hsec _]; [|done..].
    assert (Hh' : s / 60 / 60 = s' / 60 / 60)
      by (rewrite !Z.div_div by lia; exact Hh).
    rewrite (Z.div_mod s 60), (Z.div_mod s' 60) by lia.
    rewrite (Z.div_mod (s / 60) 60), (Z.div_mod (s' / 60) 60) by lia.
    lia.
Qed.

Lemma format_duration_inj_witness :
  65 = 65 ∧ format_duration 65 ≠ format_duration 3665.
Proof.
  split.
  - apply (format_duration_inj 65 65); [lia | lia | reflexivity].
  - intros H. apply (format_duration_inj 65 3665) in H; lia.
Defined.
